(** * Q-TRUTH: a shallow embedding of [main.py]

    The script derives an angle and a colour average from an image, calls a
    quantum function on them, and is written to go on to two chained
    requests to a remote text model and one JSON report.  The quantum
    function queues a fixed seven-wire circuit and then fails in its return
    statement, so a run that finds a face ends there.

    Floating-point numbers are read as real numbers throughout (Rocq's [R]);
    the library calls the script makes (numpy's mean and norm, the remote
    client, [json.loads], the clock) are given their documented meaning or
    taken from an explicit record of the outside world. *)

From Stdlib Require Import Reals Lra Lia List Bool Permutation.
From Stdlib Require Import String Ascii ZArith QArith.
From stdpp Require Import gmap strings pretty.
Import ListNotations.

Local Open Scope R_scope.

(** ** Complex amplitudes *)

Module Cx.

Definition C : Type := (R * R)%type.

Definition re (a : C) : R := fst a.
Definition im (a : C) : R := snd a.

Definition zero : C := (0, 0).
Definition one : C := (1, 0).
Definition of_R (r : R) : C := (r, 0).

Definition add (a b : C) : C := (re a + re b, im a + im b).
Definition mul (a b : C) : C :=
  (re a * re b - im a * im b, re a * im b + im a * re b).

Definition conj (a : C) : C := (re a, - im a).

(** [exp_i t] is e^{it}. *)
Definition exp_i (t : R) : C := (cos t, sin t).

(** Squared modulus: the probability carried by an amplitude. *)
Definition norm2 (a : C) : R := re a * re a + im a * im a.

End Cx.

(** ** The simulated register *)

Module Qubit.

(** A computational basis state of the register: one bit per wire, wire 0
    first, as the axes of the simulator's state tensor. *)
Definition basis : Type := list bool.

Definition state : Type := basis -> Cx.C.

Definition bit (w : nat) (x : basis) : bool := nth w x false.

Fixpoint upd (w : nat) (b : bool) (x : basis) : basis :=
  match x, w with
  | [], _ => []
  | _ :: x', O => b :: x'
  | a :: x', S w' => a :: upd w' b x'
  end.

(** [DEV = qml.device("default.qubit", wires=7)] *)
Definition num_wires : nat := 7.

(** The register starts in |0000000>. *)
Definition zero_state : state :=
  fun x => if forallb negb x then Cx.one else Cx.zero.

(** A one-wire gate is a 2x2 matrix, indexed by row and column bit. *)
Definition mat2 : Type := bool -> bool -> Cx.C.

Definition mk_mat2 (u00 u01 u10 u11 : Cx.C) : mat2 :=
  fun r c =>
    match r, c with
    | false, false => u00
    | false, true => u01
    | true, false => u10
    | true, true => u11
    end.

(** PennyLane's matrices. *)
Definition RY_matrix (phi : R) : mat2 :=
  mk_mat2 (Cx.of_R (cos (phi / 2))) (Cx.of_R (- sin (phi / 2)))
          (Cx.of_R (sin (phi / 2))) (Cx.of_R (cos (phi / 2))).

Definition RX_matrix (phi : R) : mat2 :=
  mk_mat2 (Cx.of_R (cos (phi / 2))) (0, - sin (phi / 2))
          (0, - sin (phi / 2)) (Cx.of_R (cos (phi / 2))).

Definition RZ_matrix (phi : R) : mat2 :=
  mk_mat2 (Cx.exp_i (- (phi / 2))) Cx.zero
          Cx.zero (Cx.exp_i (phi / 2)).

Definition Hadamard_matrix : mat2 :=
  mk_mat2 (Cx.of_R (/ sqrt 2)) (Cx.of_R (/ sqrt 2))
          (Cx.of_R (/ sqrt 2)) (Cx.of_R (- / sqrt 2)).

(** Applying a one-wire gate on wire [w]: the new amplitude at [x] mixes the
    two old amplitudes that differ from [x] at most in bit [w]. *)
Definition apply1 (U : mat2) (w : nat) (psi : state) : state :=
  fun x =>
    Cx.add (Cx.mul (U (bit w x) false) (psi (upd w false x)))
           (Cx.mul (U (bit w x) true) (psi (upd w true x))).

(** A gate matrix is unitary when its columns are orthonormal. *)
Definition unitary (U : mat2) : Prop :=
  Cx.norm2 (U false false) + Cx.norm2 (U true false) = 1
  /\ Cx.norm2 (U false true) + Cx.norm2 (U true true) = 1
  /\ Cx.re (Cx.mul (Cx.conj (U false false)) (U false true))
     + Cx.re (Cx.mul (Cx.conj (U true false)) (U true true)) = 0
  /\ Cx.im (Cx.mul (Cx.conj (U false false)) (U false true))
     + Cx.im (Cx.mul (Cx.conj (U true false)) (U true true)) = 0.

(** CNOT flips the target bit when the control bit is set; it permutes the
    basis and is its own inverse. *)
Definition cnot_basis (c t : nat) (x : basis) : basis :=
  upd t (xorb (bit t x) (bit c x)) x.

Definition apply_cnot (c t : nat) (psi : state) : state :=
  fun x => psi (cnot_basis c t x).

(** The operations a quantum function queues. *)
Inductive op : Type :=
| RY (phi : R) (wires : nat)
| RX (phi : R) (wires : nat)
| RZ (phi : R) (wires : nat)
| Hadamard (wires : nat)
| CNOT (control target : nat).

Definition apply_op (o : op) (psi : state) : state :=
  match o with
  | RY phi w => apply1 (RY_matrix phi) w psi
  | RX phi w => apply1 (RX_matrix phi) w psi
  | RZ phi w => apply1 (RZ_matrix phi) w psi
  | Hadamard w => apply1 Hadamard_matrix w psi
  | CNOT c t => apply_cnot c t psi
  end.

(** An operation fits an [n]-wire register when its wires exist and, for a
    CNOT, differ. *)
Definition op_valid (n : nat) (o : op) : bool :=
  match o with
  | RY _ w | RX _ w | RZ _ w | Hadamard w => Nat.ltb w n
  | CNOT c t => Nat.ltb c n && Nat.ltb t n && negb (Nat.eqb c t)
  end.

(** The shape of an operation: its gate and wires, without its angle. *)
Inductive gate : Type := gRY | gRX | gRZ | gHadamard | gCNOT.

Definition op_shape (o : op) : gate * list nat :=
  match o with
  | RY _ w => (gRY, [w])
  | RX _ w => (gRX, [w])
  | RZ _ w => (gRZ, [w])
  | Hadamard w => (gHadamard, [w])
  | CNOT c t => (gCNOT, [c; t])
  end.

(** Two states that agree on every basis state. *)
Definition state_eq (psi phi : state) : Prop := forall x, psi x = phi x.

Definition scale (k : Cx.C) (psi : state) : state :=
  fun x => Cx.mul k (psi x).

(** The state has no amplitude where wire [w] reads 1. *)
Definition vanishes_on (w : nat) (psi : state) : Prop :=
  forall x, bit w x = true -> psi x = Cx.zero.

(** The device runs the queued operations in order. *)
Definition execute (tape : list op) (psi : state) : state :=
  fold_left (fun s o => apply_op o s) tape psi.

Fixpoint all_bits (n : nat) : list basis :=
  match n with
  | O => [[]]
  | S n' => map (cons false) (all_bits n') ++ map (cons true) (all_bits n')
  end.

Definition Rsum {A : Type} (f : A -> R) (l : list A) : R :=
  fold_right (fun x acc => f x + acc) 0 l.

Definition prob (psi : state) (x : basis) : R := Cx.norm2 (psi x).

Definition total_prob (n : nat) (psi : state) : R :=
  Rsum (prob psi) (all_bits n).

Definition Z_eigenvalue (w : nat) (x : basis) : R :=
  if bit w x then -1 else 1.

(** [qml.expval(qml.PauliZ(w))] on an [n]-wire register. *)
Definition expval_PauliZ (n w : nat) (psi : state) : R :=
  Rsum (fun x => Z_eigenvalue w x * prob psi x) (all_bits n).

(** *** Diagonal observables *)

(** The expectation value of a diagonal observable with eigenvalues [F]. *)
Definition expval_diag (n : nat) (F : basis -> R) (psi : state) : R :=
  Rsum (fun x => F x * prob psi x) (all_bits n).

(** The product of the PauliZ eigenvalues on the wires of [S]. *)
Definition parity (S : list nat) (x : basis) : R :=
  fold_right (fun w acc => Z_eigenvalue w x * acc) 1 S.

(** [F] does not look at wire [w]. *)
Definition indep_of_wire (w : nat) (F : basis -> R) : Prop :=
  forall b x, F (upd w b x) = F x.

(** What a parity becomes when a CNOT is moved from the state to the
    observable: the target wire drags the control along. *)
Definition pull_cnot (c t : nat) (S : list nat) : list nat :=
  flat_map (fun w => if Nat.eqb w t then [t; c] else [w]) S.

End Qubit.

(** ** The circuit of [q_coherence_scan] *)

Import Qubit.

(** The operations queued by the body of [q_coherence_scan], in program
    order: three rotations, the loop over wires 4..6, the ring of CNOTs. *)
Definition q_coherence_scan_tape (theta : R) (color_avg : R * R) : list op :=
  [RY theta 0; RX (fst color_avg) 1; RZ (snd color_avg) 2]
  ++ flat_map (fun i => [Hadamard i; RZ (fst color_avg * PI) i]) (seq 4 3)
  ++ map (fun i => CNOT i ((i + 1) mod 7)) (seq 0 7).

Definition q_coherence_scan_state (theta : R) (color_avg : R * R) : state :=
  execute (q_coherence_scan_tape theta color_avg) zero_state.

(** Python's [sum] starts from 0 and adds from the left. *)
Definition py_sum (l : list R) : R := fold_left Rplus l 0.

(** Following the specification, not the code: the arithmetic mean of the
    seven PauliZ expectation values of the queued circuit run on |0000000>.
    The function of the source, [q_coherence_scan], is defined further
    down. *)
Definition q_coherence_scan_spec (theta : R) (color_avg : R * R) : R :=
  py_sum (map (fun w => expval_PauliZ num_wires w
                          (q_coherence_scan_state theta color_avg))
              (seq 0 7)) / 7.

(** The tape around its one use of [color_avg[1]]: what is queued before
    [qml.RZ(color_avg[1], wires=2)] and what is queued after it. *)
Definition scan_before_wire2 (theta c0 : R) : list op :=
  [RY theta 0; RX c0 1].

Definition scan_after_wire2 (c0 : R) : list op :=
  flat_map (fun i => [Hadamard i; RZ (c0 * PI) i]) (seq 4 3)
  ++ map (fun i => CNOT i ((i + 1) mod 7)) (seq 0 7).

(** The tape in two parts: the one-wire gates, then the ring of CNOTs. *)
Definition scan_rotations (theta c0 c1 : R) : list op :=
  [RY theta 0; RX c0 1; RZ c1 2]
  ++ flat_map (fun i => [Hadamard i; RZ (c0 * PI) i]) (seq 4 3).

Definition scan_cnots : list op :=
  map (fun i => CNOT i ((i + 1) mod 7)) (seq 0 7).

(** The gates and wires of the circuit, whatever the inputs. *)
Definition q_coherence_scan_layout : list (gate * list nat) :=
  [(gRY, [0]); (gRX, [1]); (gRZ, [2]);
   (gHadamard, [4]); (gRZ, [4]);
   (gHadamard, [5]); (gRZ, [5]);
   (gHadamard, [6]); (gRZ, [6]);
   (gCNOT, [0; 1]); (gCNOT, [1; 2]); (gCNOT, [2; 3]); (gCNOT, [3; 4]);
   (gCNOT, [4; 5]); (gCNOT, [5; 6]); (gCNOT, [6; 0])]%nat.


(** ** Python values *)

(** What [json.loads] returns and [json.dump] accepts.  A dict keeps its keys
    in insertion order. *)
#[local] Set Warnings "-register-all".

Inductive json : Type :=
| JNull
| JBool (b : bool)
| JInt (z : Z)
| JFloat (r : R)
| JStr (s : string)
| JList (l : list json)
| JDict (d : list (string * json)).

Inductive exn : Type :=
| ValueError (msg : string)
| KeyError (key : string)
| TypeError
| IndexError
| JSONDecodeError
| LibraryError (name : string).

Fixpoint dict_get (k : string) (d : list (string * json)) : option json :=
  match d with
  | [] => None
  | (k', v) :: d' => if String.eqb k k' then Some v else dict_get k d'
  end.

(** [obj[k]] with a string key: a dict answers or raises [KeyError]; every
    other parsed value raises [TypeError]. *)
Definition getitem (obj : json) (k : string) : exn + json :=
  match obj with
  | JDict d =>
      match dict_get k d with
      | Some v => inr v
      | None => inl (KeyError k)
      end
  | _ => inl TypeError
  end.

(** Python's two-argument [min]: the second argument wins only when it is
    strictly smaller. *)
Definition py_min (a b : R) : R := if Rlt_dec b a then b else a.

(** [int(x)] truncates towards zero; a finite float is a rational. *)
Definition py_int (x : Q) : Z := Z.quot (Qnum x) (Zpos (Qden x)).

(** ** The quantum function *)

Inductive observable : Type :=
| PauliZ (wires : nat).

(** [qml.expval(obs)] makes a measurement process; it is an object, not a
    number. *)
Inductive measurement : Type :=
| ExpectationMP (obs : observable).

(** The values the return statement of [q_coherence_scan] handles. *)
Inductive pyvalue : Type :=
| PyInt (z : Z)
| PyFloat (r : R)
| PyMeasurement (m : measurement).

(** [a + b]: numbers add; a measurement process takes part in no addition
    (it has neither [__add__] nor [__radd__]), so Python raises
    [TypeError]. *)
Definition py_add (a b : pyvalue) : exn + pyvalue :=
  match a, b with
  | PyInt x, PyInt y => inr (PyInt (x + y))
  | PyInt x, PyFloat y => inr (PyFloat (IZR x + y))
  | PyFloat x, PyInt y => inr (PyFloat (x + IZR y))
  | PyFloat x, PyFloat y => inr (PyFloat (x + y))
  | _, _ => inl TypeError
  end.

(** [a / 7.0] *)
Definition py_div_7 (a : pyvalue) : exn + pyvalue :=
  match a with
  | PyInt x => inr (PyFloat (IZR x / 7))
  | PyFloat x => inr (PyFloat (x / 7))
  | PyMeasurement _ => inl TypeError
  end.

(** What a quantum function has queued while its body runs. *)
Record queue : Type := mkQueue {
  queued_ops : list op;
  queued_measurements : list measurement
}.

(** [sum(qml.expval(qml.PauliZ(w)) for w in wires)], from the accumulator
    [acc]: the generator makes, and so queues, one measurement at a time,
    and [sum] adds it to what it has before asking for the next. *)
Fixpoint sum_expvals (acc : pyvalue) (wires : list nat) (q : queue)
  : queue * (exn + pyvalue) :=
  match wires with
  | [] => (q, inr acc)
  | w :: wires' =>
      let m := ExpectationMP (PauliZ w) in
      let q' := mkQueue (queued_ops q) (queued_measurements q ++ [m]) in
      match py_add acc (PyMeasurement m) with
      | inl e => (q', inl e)
      | inr acc' => sum_expvals acc' wires' q'
      end
  end.

(** The body of [q_coherence_scan]: the gates are queued, then the return
    expression [sum(...) / 7.0] is evaluated, [sum] starting from 0. *)
Definition q_coherence_scan_body (theta : R) (color_avg : R * R)
  : queue * (exn + pyvalue) :=
  let q := mkQueue (q_coherence_scan_tape theta color_avg) [] in
  match sum_expvals (PyInt 0) (seq 0 7) q with
  | (q', inl e) => (q', inl e)
  | (q', inr total) => (q', py_div_7 total)
  end.

(** [q_coherence_scan], the QNode: it runs the body to record the circuit,
    and an exception raised there is the call's.  Had the body returned a
    measurement, the device would run the queued gates on |0000000> and give
    its value; any other return value is refused. *)
Definition q_coherence_scan (theta : R) (color_avg : R * R) : exn + R :=
  match q_coherence_scan_body theta color_avg with
  | (_, inl e) => inl e
  | (q, inr (PyMeasurement (ExpectationMP (PauliZ w)))) =>
      inr (expval_PauliZ num_wires w (execute (queued_ops q) zero_state))
  | (_, inr _) => inl (LibraryError "QuantumFunctionError")
  end.

(** ** Images and vectors *)

(** An RGB or HSV image as numpy holds it: rows of pixels, three 8-bit
    channels each. *)
Definition pixel : Type := (Z * Z * Z)%type.
Definition image : Type := list (list pixel).

Definition channel0 (p : pixel) : Z := fst (fst p).
Definition channel1 (p : pixel) : Z := snd (fst p).
Definition channel2 (p : pixel) : Z := snd p.

Definition pixels (img : image) : list pixel := concat img.

(** [np.linalg.norm(vector)] *)
Definition np_linalg_norm (vector : list R) : R :=
  sqrt (py_sum (map (fun a => a * a) vector)).

(** The mean of one channel over all pixels. *)
Definition channel_mean (ch : pixel -> Z) (img : image) : R :=
  py_sum (map (fun p => IZR (ch p)) (pixels img))
  / INR (length (pixels img)).

(** [img.mean(axis=(0,1))]: one mean per channel. *)
Definition mean_axis01 (img : image) : R * R * R :=
  (channel_mean channel0 img, channel_mean channel1 img,
   channel_mean channel2 img).

(** ** The outside world *)

Record choice : Type := { message_content : option string }.
Record response : Type := { choices : list choice }.

(** The pure library calls of the script. *)
Record PyLib : Type := {
  (** [face_recognition.face_encodings]: one vector per detected face *)
  face_encodings : image -> list (list R);
  (** [cv2.cvtColor(image, cv2.COLOR_RGB2HSV)] *)
  cvtColor_RGB2HSV : image -> image;
  (** [json.loads]; [None] stands for [JSONDecodeError] *)
  json_loads : string -> option json;
  (** [format(x, ".4f")] *)
  format_4f : R -> string;
  (** [str] of a pair of floats and of a parsed value *)
  str_of_pair : R * R -> string;
  str_of_json : json -> string;
  (** [textwrap.dedent] and [str.strip] *)
  dedent : string -> string;
  strip : string -> string
}.

(** What a run finds around it. *)
Record World : Type := {
  (** [os.getenv("OPENAI_API_KEY")] *)
  getenv_OPENAI_API_KEY : option string;
  (** [face_recognition.load_image_file] *)
  load_image_file : string -> exn + image;
  (** [openai.ChatCompletion.create], by credential, number of earlier
      requests, model, messages and token limit *)
  ChatCompletion_create :
    string -> nat -> string -> list (string * string) -> nat -> exn + response;
  (** [datetime.utcnow().isoformat()] and [time.time()] *)
  utcnow_isoformat : string;
  time_time : Q
}.

Inductive event : Type :=
| LogInfo (fmt : string) (args : list json)
| CircuitRun (theta : R) (color_avg : R * R)
| Request (model : string) (messages : list (string * string))
          (max_tokens : nat)
| FileWrite (name : string) (doc : json).

(** The state a run changes: the JSON files on disk, by name, and what it
    has done so far. *)
Record St : Type := mkSt {
  disk : gmap string json;
  trace : list event
}.

Definition is_request (e : event) : bool :=
  match e with Request _ _ _ => true | _ => false end.

Definition is_write (e : event) : bool :=
  match e with FileWrite _ _ => true | _ => false end.

Definition is_circuit_run (e : event) : bool :=
  match e with CircuitRun _ _ => true | _ => false end.

Definition requests_of (t : list event) : list event := List.filter is_request t.
Definition writes_of (t : list event) : list event := List.filter is_write t.

(** ** A state-and-exception monad for the script *)

Definition M (A : Type) : Type := St -> St * (exn + A).

Definition ret {A : Type} (a : A) : M A := fun st => (st, inr a).

Definition raise {A : Type} (e : exn) : M A := fun st => (st, inl e).

Definition bind {A B : Type} (m : M A) (k : A -> M B) : M B :=
  fun st =>
    match m st with
    | (st', inr a) => k a st'
    | (st', inl e) => (st', inl e)
    end.

Definition lift {A : Type} (r : exn + A) : M A := fun st => (st, r).

Definition emit (e : event) : M unit :=
  fun st => (mkSt (disk st) (trace st ++ [e]), inr tt).

Definition write_file (name : string) (doc : json) : M unit :=
  fun st => (mkSt (<[name := doc]> (disk st)) (trace st ++ [FileWrite name doc]),
             inr tt).

Declare Scope py_scope.
Delimit Scope py_scope with py.
Notation "x <- m ;; k" := (bind m (fun x => k))
  (at level 100, m at next level, right associativity) : py_scope.
Notation "m ;; k" := (bind m (fun _ => k))
  (at level 100, right associativity) : py_scope.

(** ** Configuration *)

Definition MODEL : string := "gpt-4o".
Definition IMAGE_PATH : string := "suspect.jpg".

Definition nl : string := String "010" EmptyString.
Definition dq : string := String "034" EmptyString.

Definition quoted (s : string) : string := (dq ++ s ++ dq)%string.

Definition unlines (l : list string) : string := String.concat nl l.

(** ** The script *)

Section Script.

Context (lib : PyLib) (w : World).

(** [openai.api_key = os.getenv("OPENAI_API_KEY", "")] *)
Definition api_key : string :=
  match getenv_OPENAI_API_KEY w with
  | Some k => k
  | None => EmptyString
  end.

(** [theta = min(np.linalg.norm(vector), 1.0) * math.pi] *)
Definition derive_theta (vector : list R) : R :=
  py_min (np_linalg_norm vector) 1 * PI.

(** [color_mean = cv2.cvtColor(image, cv2.COLOR_RGB2HSV).mean(axis=(0,1))]
    [color_avg = (color_mean[0] / 180.0, color_mean[1] / 255.0)] *)
Definition derive_color_avg (img : image) : R * R :=
  let color_mean := mean_axis01 (cvtColor_RGB2HSV lib img) in
  (fst (fst color_mean) / 180, snd (fst color_mean) / 255).

(** [QuantumImageProfile.from_image] *)
Definition from_image (path : string) : M (list R * R * (R * R)) :=
  (img <- lift (load_image_file w path) ;;
   match face_encodings lib img with
   | [] => raise (ValueError "No face found in image.")
   | vector :: _ =>
       let theta := derive_theta vector in
       let color_avg := derive_color_avg img in
       ret (vector, theta, color_avg)
   end)%py.

Definition corruption_stage1 (theta q_score : R) (color_avg : R * R) : string :=
  strip lib (dedent lib (unlines
    [ EmptyString;
      "    You are Q-TRUTH, a sovereign quantum ethical AI. You are scanning the historical and future integrity ";
      "    of a person using quantum coherence (θ=" ++ format_4f lib theta
        ++ ") and vibrational signature (q_score=" ++ format_4f lib q_score
        ++ ").";
      "    ";
      "    They are either a police officer or medical professional under review. Their average HSV color fingerprint is "
        ++ str_of_pair lib color_avg ++ ".";
      "    ";
      "    Determine:";
      "    - Have they committed past acts of misconduct or corruption?";
      "    - Are future branches likely to involve abuse of power, bribes, falsified reports, or harm?";
      "    ";
      "    OUTPUT (JSON): {";
      "        " ++ quoted "alignment" ++ ": "
        ++ quoted "Trustworthy | Compromised | Highly Dangerous" ++ ",";
      "        " ++ quoted "summary" ++ ": " ++ quoted "One paragraph summary"
        ++ ",";
      "        " ++ quoted "risk_score" ++ ": float (0.00 - 1.00)";
      "    }";
      "    " ]%string)).

Definition corruption_stage2 (alignment : json) (theta : R) : string :=
  dedent lib (unlines
    [ EmptyString;
      "    Based on the alignment=" ++ quoted (str_of_json lib alignment)
        ++ ", offer 3 possible multiversal outcomes over the next 48 months.";
      "    Each should mention:";
      "    - Their role in the scenario (cop/doctor)";
      "    - Potential for harm or redemption";
      "    - A timestamp or season of manifestation";
      "    Also include a suggested intervention plan.";
      "    ";
      "    OUTPUT (JSON): {";
      "        " ++ quoted "branches" ++ ": [" ++ quoted "..." ++ ", "
        ++ quoted "..." ++ ", " ++ quoted "..." ++ "],";
      "        " ++ quoted "intervention" ++ ": " ++ quoted "...";
      "    }";
      "    " ]%string).

(** What the [n]-th request of a run comes back with, through
    [json.loads(res.choices[0].message.content)]. *)
Definition ask_reply (n : nat) (prompt : string) (max_tokens : nat)
  : exn + json :=
  match ChatCompletion_create w api_key n MODEL [("user", prompt)] max_tokens with
  | inl e => inl e
  | inr res =>
      match choices res with
      | [] => inl IndexError
      | c :: _ =>
          match message_content c with
          | None => inl TypeError
          | Some content =>
              match json_loads lib content with
              | Some v => inr v
              | None => inl JSONDecodeError
              end
          end
      end
  end.

(** [QTruthDetector.ask] *)
Definition ask (prompt : string) (max_tokens : nat) : M json :=
  fun st =>
    (mkSt (disk st) (trace st ++ [Request MODEL [("user", prompt)] max_tokens]),
     ask_reply (length (requests_of (trace st))) prompt max_tokens).

(** [float(q_coherence_scan(theta, color_avg))], as a step of the run: the
    call is recorded, and what it raises the run raises. *)
Definition run_circuit (theta : R) (color_avg : R * R) : M R :=
  (emit (CircuitRun theta color_avg) ;;
   lift (q_coherence_scan theta color_avg))%py.

Definition report_name : string :=
  ("corruption_report_" ++ pretty (py_int (time_time w)) ++ ".json")%string.

(** [QTruthDetector.run_analysis] *)
Definition run_analysis (img_path : string) : M unit :=
  (emit (LogInfo "Running quantum integrity scan on image: %s"
                 [JStr img_path]) ;;
   profile <- from_image img_path ;;
   let '(vec, theta, color_avg) := profile in
   q_score <- run_circuit theta color_avg ;;
   emit (LogInfo "θ=%.4f, q_score=%.4f" [JFloat theta; JFloat q_score]) ;;
   r1 <- ask (corruption_stage1 theta q_score color_avg) 1000 ;;
   alignment <- lift (getitem r1 "alignment") ;;
   r2 <- ask (corruption_stage2 alignment theta) 1000 ;;
   let timestamp := JStr (utcnow_isoformat w) in
   alignment' <- lift (getitem r1 "alignment") ;;
   risk_score <- lift (getitem r1 "risk_score") ;;
   summary <- lift (getitem r1 "summary") ;;
   branches <- lift (getitem r2 "branches") ;;
   intervention <- lift (getitem r2 "intervention") ;;
   let report :=
     JDict [ ("timestamp", timestamp);
             ("theta", JFloat theta);
             ("q_score", JFloat q_score);
             ("alignment", alignment');
             ("risk_score", risk_score);
             ("summary", summary);
             ("branches", branches);
             ("intervention", intervention) ]%string in
   let fn := report_name in
   write_file fn report ;;
   emit (LogInfo "Report saved: %s" [JStr fn]))%py.

End Script.


(** ** Sample runs *)

Module Sample.

Definition rgb : image := [[(200, 120, 40)%Z; (10, 20, 30)%Z]].
Definition hsv : image := [[(15, 204, 200)%Z; (105, 170, 30)%Z]].

Definition reply1 : json :=
  JDict [ ("alignment", JStr "Mostly Harmless");
          ("summary", JStr "n/a");
          ("risk_score", JInt 7) ]%string.

Definition reply2 : json :=
  JDict [ ("branches", JList [JStr "a"; JStr "b"; JStr "c"]);
          ("intervention", JStr "none") ]%string.

(** A library that detects the given faces and parses two fixed texts. *)
Definition lib (faces : list (list R)) : PyLib := {|
  face_encodings := fun _ => faces;
  cvtColor_RGB2HSV := fun _ => hsv;
  json_loads := fun s =>
    if String.eqb s "first" then Some reply1
    else if String.eqb s "second" then Some reply2
    else None;
  format_4f := fun _ => "0.0000"%string;
  str_of_pair := fun _ => "(0.0, 0.0)"%string;
  str_of_json := fun v => match v with JStr s => s | _ => "?"%string end;
  dedent := fun s => s;
  strip := fun s => s
|}.

Definition text (s : string) : exn + response :=
  inr {| choices := [ {| message_content := Some s |} ] |}.

(** A world whose remote model answers the [n]-th request with the [n]-th
    entry of [replies], and fails to connect after that. *)
Definition world (replies : list (exn + response)) : World := {|
  getenv_OPENAI_API_KEY := Some "sk-test"%string;
  load_image_file := fun _ => inr rgb;
  ChatCompletion_create := fun _ n _ _ _ =>
    nth n replies (inl (LibraryError "APIConnectionError"));
  utcnow_isoformat := "2024-01-01T00:00:00.250000"%string;
  time_time := 6800000001 # 4
|}.

Definition face : list R := [1; 0].

Definition st0 : St := mkSt ∅ [].

End Sample.


(** ** The entry point *)

(** [QTruthDetector().run_analysis()]: the constructor only seeds the random
    generators, which nothing reads, and the path is the default one. *)
Definition main (lib : PyLib) (w : World) : M unit :=
  run_analysis lib w IMAGE_PATH.

Module MoreSamples.

(** A world like [Sample.world] whose clock reads [t] and whose image file
    is there or not. *)
Definition world_at (t : Q) (readable : bool)
           (replies : list (exn + response)) : World := {|
  getenv_OPENAI_API_KEY := Some "sk-test"%string;
  load_image_file := fun _ =>
    if readable then inr Sample.rgb
    else inl (LibraryError "FileNotFoundError");
  ChatCompletion_create := fun _ n _ _ _ =>
    nth n replies (inl (LibraryError "APIConnectionError"));
  utcnow_isoformat := "2024-01-01T00:00:00.750000"%string;
  time_time := t
|}.

(** A first response that has its alignment but no risk score. *)
Definition reply_without_risk : json :=
  JDict [ ("alignment", JStr "Trustworthy");
          ("summary", JStr "n/a") ]%string.

Definition lib : PyLib := {|
  face_encodings := fun _ => [Sample.face];
  cvtColor_RGB2HSV := fun _ => Sample.hsv;
  json_loads := fun s =>
    if String.eqb s "first" then Some Sample.reply1
    else if String.eqb s "second" then Some Sample.reply2
    else if String.eqb s "no risk" then Some reply_without_risk
    else if String.eqb s "a list" then Some (JList [])
    else None;
  format_4f := fun _ => "0.0000"%string;
  str_of_pair := fun _ => "(0.0, 0.0)"%string;
  str_of_json := fun v => match v with JStr s => s | _ => "?"%string end;
  dedent := fun s => s;
  strip := fun s => s
|}.


End MoreSamples.


(** The numeric and textual parts stay folded when a run is evaluated. *)
Arguments q_coherence_scan_spec : simpl never.
Arguments derive_theta : simpl never.
Arguments derive_color_avg : simpl never.
Arguments corruption_stage1 : simpl never.
Arguments corruption_stage2 : simpl never.


(* ===================================================================== *)
(** * Properties *)
(* ===================================================================== *)

(** ** Finite sums over the basis *)

Module QubitFacts.

Lemma Rsum_app {A} (f : A -> R) (l1 l2 : list A) :
  Rsum f (l1 ++ l2) = Rsum f l1 + Rsum f l2.
Proof.
  induction l1 as [|a l1 IH]; simpl.
  - lra.
  - rewrite IH. lra.
Qed.

Lemma Rsum_map {A B} (g : A -> B) (f : B -> R) (l : list A) :
  Rsum f (map g l) = Rsum (fun a => f (g a)) l.
Proof.
  induction l as [|a l IH]; simpl; [reflexivity | now rewrite IH].
Qed.

Lemma Rsum_ext {A} (f g : A -> R) (l : list A) :
  (forall a, In a l -> f a = g a) -> Rsum f l = Rsum g l.
Proof.
  induction l as [|a l IH]; simpl; intros H; [reflexivity|].
  rewrite (H a) by now left.
  rewrite IH; [reflexivity|]. intros b Hb. apply H. now right.
Qed.

Lemma Rsum_plus {A} (f g : A -> R) (l : list A) :
  Rsum (fun a => f a + g a) l = Rsum f l + Rsum g l.
Proof.
  induction l as [|a l IH]; simpl; [lra | rewrite IH; lra].
Qed.

Lemma Rsum_zero {A} (l : list A) : Rsum (fun _ => 0) l = 0.
Proof.
  induction l as [|a l IH]; simpl; [reflexivity | rewrite IH; lra].
Qed.

Lemma Rsum_le {A} (f g : A -> R) (l : list A) :
  (forall a, f a <= g a) -> Rsum f l <= Rsum g l.
Proof.
  intros H. induction l as [|a l IH]; simpl; [lra|].
  specialize (H a). lra.
Qed.

Lemma Rsum_opp {A} (f : A -> R) (l : list A) :
  Rsum (fun a => - f a) l = - Rsum f l.
Proof.
  induction l as [|a l IH]; simpl; [lra | rewrite IH; lra].
Qed.

Lemma Rsum_perm {A} (f : A -> R) (l1 l2 : list A) :
  Permutation l1 l2 -> Rsum f l1 = Rsum f l2.
Proof.
  induction 1; simpl; try lra.
Qed.

(** Summing over [S n] wires splits on the first wire. *)
Lemma Rsum_all_bits_S (F : basis -> R) (n : nat) :
  Rsum F (all_bits (S n)) =
  Rsum (fun x => F (false :: x)) (all_bits n)
  + Rsum (fun x => F (true :: x)) (all_bits n).
Proof.
  simpl. now rewrite Rsum_app, !Rsum_map.
Qed.

Lemma in_all_bits (n : nat) (x : basis) :
  In x (all_bits n) <-> length x = n.
Proof.
  revert x. induction n as [|n IH]; intros x; simpl.
  - split.
    + intros [<-|[]]. reflexivity.
    + destruct x; [now left | discriminate].
  - rewrite in_app_iff, !in_map_iff. split.
    + intros [[y [<- Hy]]|[y [<- Hy]]]; simpl; f_equal; now apply IH.
    + destruct x as [|[] x]; [discriminate| |]; simpl; intros [= Hx].
      * right. exists x. split; [reflexivity | now apply IH].
      * left. exists x. split; [reflexivity | now apply IH].
Qed.

Lemma NoDup_all_bits (n : nat) : List.NoDup (all_bits n).
Proof.
  induction n as [|n IH]; simpl.
  - constructor; [intros [] | constructor].
  - assert (Hinj : forall b : bool, List.NoDup (map (cons b) (all_bits n))).
    { intros b. apply Finite.Injective_map_NoDup; [|exact IH].
      intros x y [= ->]. reflexivity. }
    apply List.NoDup_app; try apply Hinj.
    intros x Hf Ht. apply in_map_iff in Hf as [y [<- _]].
    apply in_map_iff in Ht as [z [[=] _]].
Qed.

(** ** Gates preserve total probability *)

Lemma unitary_isometry (U : mat2) (a b : Cx.C) :
  unitary U ->
  Cx.norm2 (Cx.add (Cx.mul (U false false) a) (Cx.mul (U false true) b))
  + Cx.norm2 (Cx.add (Cx.mul (U true false) a) (Cx.mul (U true true) b))
  = Cx.norm2 a + Cx.norm2 b.
Proof.
  unfold unitary.
  destruct (U false false) as [p0 q0], (U false true) as [p1 q1],
           (U true false) as [p2 q2], (U true true) as [p3 q3],
           a as [ar ai], b as [br bi].
  unfold Cx.norm2, Cx.add, Cx.mul, Cx.conj, Cx.re, Cx.im; simpl.
  intros (H1 & H2 & H3 & H4).
  set (n1 := p0 * p0 + q0 * q0 + (p2 * p2 + q2 * q2)) in H1.
  set (n2 := p1 * p1 + q1 * q1 + (p3 * p3 + q3 * q3)) in H2.
  set (cr := p0 * p1 - - q0 * q1 + (p2 * p3 - - q2 * q3)) in H3.
  set (ci := p0 * q1 + - q0 * p1 + (p2 * q3 + - q2 * p3)) in H4.
  match goal with
  | |- ?lhs = ?rhs =>
      replace lhs with
        (n1 * (ar * ar + ai * ai) + n2 * (br * br + bi * bi)
         + 2 * cr * (ar * br + ai * bi) + 2 * ci * (ai * br - ar * bi))
        by (unfold n1, n2, cr, ci; ring)
  end.
  rewrite H1, H2, H3, H4. ring.
Qed.

Lemma apply1_cons_S (U : mat2) (w : nat) (psi : state) (b : bool) (x : basis) :
  apply1 U (S w) psi (b :: x) = apply1 U w (fun y => psi (b :: y)) x.
Proof. reflexivity. Qed.

Lemma apply1_preserves_total_prob (U : mat2) :
  unitary U ->
  forall (w n : nat) (psi : state),
    (w < n)%nat -> total_prob n (apply1 U w psi) = total_prob n psi.
Proof.
  intros HU. unfold total_prob.
  induction w as [|w IH]; intros [|n] psi Hw; try lia.
  - rewrite !Rsum_all_bits_S, <- !Rsum_plus.
    apply Rsum_ext. intros x _. unfold prob, apply1; simpl.
    now apply unitary_isometry.
  - rewrite !Rsum_all_bits_S.
    f_equal.
    + transitivity (total_prob n (apply1 U w (fun y => psi (false :: y)))).
      * reflexivity.
      * unfold total_prob. now rewrite IH by lia.
    + transitivity (total_prob n (apply1 U w (fun y => psi (true :: y)))).
      * reflexivity.
      * unfold total_prob. now rewrite IH by lia.
Qed.

Lemma cos2_sin2_one (t : R) : cos t * cos t + sin t * sin t = 1.
Proof. generalize (sin2_cos2 t). unfold Rsqr. lra. Qed.

Lemma unitary_RY (phi : R) : unitary (RY_matrix phi).
Proof.
  generalize (cos2_sin2_one (phi / 2)).
  unfold unitary, RY_matrix, mk_mat2, Cx.norm2, Cx.mul, Cx.conj, Cx.of_R,
    Cx.re, Cx.im; simpl.
  intros H. repeat split; nra.
Qed.

Lemma unitary_RX (phi : R) : unitary (RX_matrix phi).
Proof.
  generalize (cos2_sin2_one (phi / 2)).
  unfold unitary, RX_matrix, mk_mat2, Cx.norm2, Cx.mul, Cx.conj, Cx.of_R,
    Cx.re, Cx.im; simpl.
  intros H. repeat split; nra.
Qed.

Lemma unitary_RZ (phi : R) : unitary (RZ_matrix phi).
Proof.
  generalize (cos2_sin2_one (phi / 2)) (cos2_sin2_one (- (phi / 2))).
  unfold unitary, RZ_matrix, mk_mat2, Cx.norm2, Cx.mul, Cx.conj, Cx.exp_i,
    Cx.zero, Cx.re, Cx.im; simpl.
  intros H H'. repeat split; nra.
Qed.

Lemma inv_sqrt2_sqr : / sqrt 2 * / sqrt 2 = / 2.
Proof.
  rewrite <- Rinv_mult, sqrt_sqrt by lra. reflexivity.
Qed.

Lemma unitary_Hadamard : unitary Hadamard_matrix.
Proof.
  generalize inv_sqrt2_sqr.
  unfold unitary, Hadamard_matrix, mk_mat2, Cx.norm2, Cx.mul, Cx.conj,
    Cx.of_R, Cx.re, Cx.im; simpl.
  intros H. repeat split; nra.
Qed.

(** *** The basis permutation behind CNOT *)

Lemma length_upd (w : nat) (b : bool) (x : basis) :
  length (upd w b x) = length x.
Proof.
  revert w. induction x as [|a x IH]; intros [|w]; simpl; auto.
Qed.

Lemma upd_out_of_range (w : nat) (b : bool) (x : basis) :
  (length x <= w)%nat -> upd w b x = x.
Proof.
  revert w. induction x as [|a x IH]; intros [|w]; simpl; intros H;
    try reflexivity; try lia.
  f_equal. apply IH. lia.
Qed.

Lemma bit_upd_same (w : nat) (b : bool) (x : basis) :
  (w < length x)%nat -> bit w (upd w b x) = b.
Proof.
  unfold bit. revert w. induction x as [|a x IH]; intros [|w]; simpl;
    intros H; try reflexivity; try lia.
  apply IH. lia.
Qed.

Lemma bit_upd_other (v w : nat) (b : bool) (x : basis) :
  v <> w -> bit v (upd w b x) = bit v x.
Proof.
  unfold bit. revert v w. induction x as [|a x IH]; intros [|v] [|w] H;
    simpl; try reflexivity; try congruence.
  apply IH. congruence.
Qed.

Lemma upd_upd (w : nat) (b b' : bool) (x : basis) :
  upd w b (upd w b' x) = upd w b x.
Proof.
  revert w. induction x as [|a x IH]; intros [|w]; simpl; try reflexivity.
  now rewrite IH.
Qed.

Lemma upd_bit (w : nat) (x : basis) : upd w (bit w x) x = x.
Proof.
  unfold bit. revert w. induction x as [|a x IH]; intros [|w]; simpl;
    try reflexivity.
  now rewrite IH.
Qed.

Lemma length_cnot_basis (c t : nat) (x : basis) :
  length (cnot_basis c t x) = length x.
Proof. apply length_upd. Qed.

Lemma cnot_basis_involutive (c t : nat) (x : basis) :
  c <> t -> cnot_basis c t (cnot_basis c t x) = x.
Proof.
  intros Hct. unfold cnot_basis.
  destruct (Nat.lt_ge_cases t (length x)) as [Ht|Ht].
  - rewrite bit_upd_same by exact Ht.
    rewrite bit_upd_other by exact Hct.
    rewrite upd_upd.
    rewrite xorb_assoc, xorb_nilpotent, xorb_false_r.
    apply upd_bit.
  - rewrite (upd_out_of_range t _ x Ht).
    apply upd_out_of_range, Ht.
Qed.

Lemma cnot_basis_permutes (c t n : nat) :
  c <> t -> Permutation (map (cnot_basis c t) (all_bits n)) (all_bits n).
Proof.
  intros Hct. apply Permutation.NoDup_Permutation.
  - apply Finite.Injective_map_NoDup; [|apply NoDup_all_bits].
    intros x y H.
    rewrite <- (cnot_basis_involutive c t x Hct),
            <- (cnot_basis_involutive c t y Hct).
    now rewrite H.
  - apply NoDup_all_bits.
  - intros x. rewrite in_map_iff, in_all_bits. split.
    + intros [y [<- Hy]]. rewrite length_cnot_basis. now apply in_all_bits.
    + intros Hx. exists (cnot_basis c t x). split.
      * now apply cnot_basis_involutive.
      * apply in_all_bits. now rewrite length_cnot_basis.
Qed.

Lemma Rsum_cnot_basis (F : basis -> R) (c t n : nat) :
  c <> t ->
  Rsum (fun x => F (cnot_basis c t x)) (all_bits n) = Rsum F (all_bits n).
Proof.
  intros Hct. rewrite <- (Rsum_map (cnot_basis c t) F).
  apply Rsum_perm, cnot_basis_permutes, Hct.
Qed.

Lemma apply_cnot_preserves_total_prob (c t n : nat) (psi : state) :
  c <> t -> total_prob n (apply_cnot c t psi) = total_prob n psi.
Proof.
  intros Hct. unfold total_prob, apply_cnot, prob.
  exact (Rsum_cnot_basis (fun x => Cx.norm2 (psi x)) c t n Hct).
Qed.

(** *** Whole tapes *)

Lemma apply_op_preserves_total_prob (n : nat) (o : op) (psi : state) :
  op_valid n o = true -> total_prob n (apply_op o psi) = total_prob n psi.
Proof.
  destruct o as [phi w|phi w|phi w|w|c t]; simpl; intros H.
  - apply Nat.ltb_lt in H.
    now apply apply1_preserves_total_prob; [apply unitary_RY|].
  - apply Nat.ltb_lt in H.
    now apply apply1_preserves_total_prob; [apply unitary_RX|].
  - apply Nat.ltb_lt in H.
    now apply apply1_preserves_total_prob; [apply unitary_RZ|].
  - apply Nat.ltb_lt in H.
    now apply apply1_preserves_total_prob; [apply unitary_Hadamard|].
  - apply andb_true_iff in H as [_ H].
    apply negb_true_iff, Nat.eqb_neq in H.
    now apply apply_cnot_preserves_total_prob.
Qed.

Lemma execute_preserves_total_prob (n : nat) (tape : list op) :
  forallb (op_valid n) tape = true ->
  forall psi, total_prob n (execute tape psi) = total_prob n psi.
Proof.
  unfold execute.
  induction tape as [|o tape IH]; simpl; intros H psi; [reflexivity|].
  apply andb_true_iff in H as [Ho Ht].
  rewrite IH by exact Ht.
  now apply apply_op_preserves_total_prob.
Qed.

Lemma total_prob_zero_state (n : nat) : total_prob n zero_state = 1.
Proof.
  unfold total_prob. induction n as [|n IH].
  - unfold prob, zero_state, Cx.norm2, Cx.one, Cx.re, Cx.im; simpl. lra.
  - rewrite Rsum_all_bits_S.
    rewrite (Rsum_ext _ (prob zero_state)), IH.
    + rewrite (Rsum_ext _ (fun _ => 0)), Rsum_zero; [lra|].
      intros x _.
      unfold prob, zero_state, Cx.norm2, Cx.zero, Cx.re, Cx.im; simpl. lra.
    + intros x _. reflexivity.
Qed.

(** *** Expectation values *)

Lemma prob_nonneg (psi : state) (x : basis) : 0 <= prob psi x.
Proof. unfold prob, Cx.norm2. nra. Qed.

Lemma expval_PauliZ_bounds (n w : nat) (psi : state) :
  - total_prob n psi <= expval_PauliZ n w psi <= total_prob n psi.
Proof.
  unfold expval_PauliZ, total_prob. split.
  - rewrite <- Rsum_opp. apply Rsum_le. intros x.
    generalize (prob_nonneg psi x). unfold Z_eigenvalue.
    destruct (bit w x); lra.
  - apply Rsum_le. intros x.
    generalize (prob_nonneg psi x). unfold Z_eigenvalue.
    destruct (bit w x); lra.
Qed.

Lemma py_sum_seq7 (f : nat -> R) :
  py_sum (map f (seq 0 7)) = f 0%nat + f 1%nat + f 2%nat + f 3%nat
                             + f 4%nat + f 5%nat + f 6%nat.
Proof. unfold py_sum. simpl. ring. Qed.

End QubitFacts.

(** ** The circuit and the mean the specification describes *)

Module ScanFacts.
Import QubitFacts.

Lemma q_coherence_scan_tape_valid (theta : R) (color_avg : R * R) :
  forallb (op_valid num_wires) (q_coherence_scan_tape theta color_avg) = true.
Proof. reflexivity. Qed.

Lemma q_coherence_scan_state_normalised (theta : R) (color_avg : R * R) :
  total_prob num_wires (q_coherence_scan_state theta color_avg) = 1.
Proof.
  unfold q_coherence_scan_state.
  rewrite execute_preserves_total_prob
    by apply q_coherence_scan_tape_valid.
  apply total_prob_zero_state.
Qed.

Lemma q_coherence_scan_spec_unfold (theta : R) (color_avg : R * R) :
  let e w := expval_PauliZ num_wires w
               (q_coherence_scan_state theta color_avg) in
  q_coherence_scan_spec theta color_avg =
  (e 0%nat + e 1%nat + e 2%nat + e 3%nat + e 4%nat + e 5%nat + e 6%nat) / 7.
Proof.
  intros e. unfold q_coherence_scan_spec.
  f_equal. exact (py_sum_seq7 e).
Qed.

Lemma q_coherence_scan_tape_layout (theta : R) (color_avg : R * R) :
  map op_shape (q_coherence_scan_tape theta color_avg)
  = q_coherence_scan_layout.
Proof. reflexivity. Qed.

Lemma q_coherence_scan_spec_range (theta : R) (color_avg : R * R) :
  -1 <= q_coherence_scan_spec theta color_avg <= 1.
Proof.
  rewrite q_coherence_scan_spec_unfold. cbv zeta.
  set (psi := q_coherence_scan_state theta color_avg).
  assert (H : forall w, -1 <= expval_PauliZ num_wires w psi <= 1).
  { intros w. generalize (expval_PauliZ_bounds num_wires w psi).
    unfold psi. rewrite q_coherence_scan_state_normalised. tauto. }
  generalize (H 0%nat) (H 1%nat) (H 2%nat) (H 3%nat) (H 4%nat) (H 5%nat)
             (H 6%nat).
  generalize (expval_PauliZ num_wires).
  intros e; intros. lra.
Qed.

(** *** A phase on an unpopulated wire *)

Lemma Cx_mul_zero_r (a : Cx.C) : Cx.mul a Cx.zero = Cx.zero.
Proof. unfold Cx.mul, Cx.zero, Cx.re, Cx.im; simpl. f_equal; ring. Qed.

Lemma Cx_mul_zero_l (a : Cx.C) : Cx.mul Cx.zero a = Cx.zero.
Proof. unfold Cx.mul, Cx.zero, Cx.re, Cx.im; simpl. f_equal; ring. Qed.

Lemma Cx_add_zero_r (a : Cx.C) : Cx.add a Cx.zero = a.
Proof.
  destruct a as [x y]. unfold Cx.add, Cx.zero, Cx.re, Cx.im; simpl.
  f_equal; ring.
Qed.

Lemma Cx_add_zero_l (a : Cx.C) : Cx.add Cx.zero a = a.
Proof.
  destruct a as [x y]. unfold Cx.add, Cx.zero, Cx.re, Cx.im; simpl.
  f_equal; ring.
Qed.

Lemma Cx_mul_assoc_swap (u k a : Cx.C) :
  Cx.mul u (Cx.mul k a) = Cx.mul k (Cx.mul u a).
Proof. unfold Cx.mul, Cx.re, Cx.im; simpl. f_equal; ring. Qed.

Lemma Cx_mul_add_distr (k a b : Cx.C) :
  Cx.mul k (Cx.add a b) = Cx.add (Cx.mul k a) (Cx.mul k b).
Proof. unfold Cx.mul, Cx.add, Cx.re, Cx.im; simpl. f_equal; ring. Qed.

Lemma Cx_norm2_mul (a b : Cx.C) :
  Cx.norm2 (Cx.mul a b) = Cx.norm2 a * Cx.norm2 b.
Proof. unfold Cx.norm2, Cx.mul, Cx.re, Cx.im; simpl. ring. Qed.

Lemma Cx_norm2_exp_i (t : R) : Cx.norm2 (Cx.exp_i t) = 1.
Proof. unfold Cx.norm2, Cx.exp_i, Cx.re, Cx.im; simpl. apply cos2_sin2_one. Qed.

Lemma zero_state_vanishes (w : nat) : vanishes_on w zero_state.
Proof.
  unfold vanishes_on, zero_state, bit.
  induction w as [|w IH]; intros [|[] x]; simpl; intros H;
    try discriminate; try reflexivity.
  now apply IH.
Qed.

Lemma apply1_vanishes (U : mat2) (v w : nat) (psi : state) :
  v <> w -> vanishes_on v psi -> vanishes_on v (apply1 U w psi).
Proof.
  intros Hvw Hpsi x Hx. unfold apply1.
  rewrite !Hpsi by now rewrite bit_upd_other.
  now rewrite !Cx_mul_zero_r, Cx_add_zero_r.
Qed.

Lemma RZ_on_vanishing_wire (phi : R) (w : nat) (psi : state) :
  vanishes_on w psi ->
  state_eq (apply1 (RZ_matrix phi) w psi)
           (scale (Cx.exp_i (- (phi / 2))) psi).
Proof.
  intros Hpsi x. unfold apply1, scale.
  destruct (bit w x) eqn:Hb.
  - rewrite (Hpsi x Hb).
    assert (Hx : upd w true x = x) by (rewrite <- Hb; apply upd_bit).
    rewrite Hx, (Hpsi x Hb). unfold RZ_matrix, mk_mat2.
    now rewrite Cx_mul_zero_l, !Cx_mul_zero_r, Cx_add_zero_r.
  - assert (Hx : upd w false x = x) by (rewrite <- Hb; apply upd_bit).
    rewrite Hx. unfold RZ_matrix, mk_mat2.
    now rewrite Cx_mul_zero_l, Cx_add_zero_r.
Qed.

(** *** Gates are linear and respect pointwise equality *)

Lemma apply_op_ext (o : op) (psi phi : state) :
  state_eq psi phi -> state_eq (apply_op o psi) (apply_op o phi).
Proof.
  intros H x. destruct o; simpl; unfold apply1, apply_cnot;
    now rewrite ?H.
Qed.

Lemma execute_ext (tape : list op) :
  forall psi phi, state_eq psi phi ->
                  state_eq (execute tape psi) (execute tape phi).
Proof.
  unfold execute. induction tape as [|o tape IH]; simpl; intros psi phi H.
  - exact H.
  - apply IH. now apply apply_op_ext.
Qed.

Lemma apply_op_scale (k : Cx.C) (o : op) (psi : state) :
  state_eq (apply_op o (scale k psi)) (scale k (apply_op o psi)).
Proof.
  intros x. destruct o; simpl; unfold apply1, apply_cnot, scale;
    try reflexivity;
    now rewrite !(Cx_mul_assoc_swap _ k), <- Cx_mul_add_distr.
Qed.

Lemma execute_scale (k : Cx.C) (tape : list op) :
  forall psi, state_eq (execute tape (scale k psi))
                       (scale k (execute tape psi)).
Proof.
  induction tape as [|o tape IH]; intros psi x; [reflexivity|].
  change (execute (o :: tape) (scale k psi))
    with (execute tape (apply_op o (scale k psi))).
  change (execute (o :: tape) psi) with (execute tape (apply_op o psi)).
  rewrite (execute_ext tape _ _ (apply_op_scale k o psi) x).
  apply IH.
Qed.

Lemma execute_app (t1 t2 : list op) (psi : state) :
  execute (t1 ++ t2) psi = execute t2 (execute t1 psi).
Proof. apply fold_left_app. Qed.

Lemma q_coherence_scan_tape_split (theta c0 c1 : R) :
  q_coherence_scan_tape theta (c0, c1)
  = scan_before_wire2 theta c0 ++ [RZ c1 2] ++ scan_after_wire2 c0.
Proof. reflexivity. Qed.

Lemma scan_before_wire2_vanishes (theta c0 : R) :
  vanishes_on 2 (execute (scan_before_wire2 theta c0) zero_state).
Proof.
  unfold scan_before_wire2, execute; simpl.
  apply apply1_vanishes; [lia|].
  apply apply1_vanishes; [lia|].
  apply zero_state_vanishes.
Qed.

(** The final state is the [c1]-free state times the phase e^{-i c1/2}. *)
Lemma q_coherence_scan_state_phase (theta c0 c1 : R) :
  state_eq (q_coherence_scan_state theta (c0, c1))
           (scale (Cx.exp_i (- (c1 / 2)))
                  (execute (scan_after_wire2 c0)
                           (execute (scan_before_wire2 theta c0) zero_state))).
Proof.
  intros x. unfold q_coherence_scan_state.
  rewrite q_coherence_scan_tape_split, !execute_app.
  change (execute [RZ c1 2] ?s) with (apply1 (RZ_matrix c1) 2 s).
  rewrite (execute_ext (scan_after_wire2 c0) _ _
             (RZ_on_vanishing_wire c1 2 _
                (scan_before_wire2_vanishes theta c0)) x).
  apply execute_scale.
Qed.

Lemma q_coherence_scan_prob (theta c0 c1 : R) (x : basis) :
  prob (q_coherence_scan_state theta (c0, c1)) x
  = prob (execute (scan_after_wire2 c0)
                  (execute (scan_before_wire2 theta c0) zero_state)) x.
Proof.
  unfold prob. rewrite q_coherence_scan_state_phase. unfold scale.
  rewrite Cx_norm2_mul, Cx_norm2_exp_i. ring.
Qed.

Lemma q_coherence_scan_expval_c1 (theta c0 c1 c1' : R) (w : nat) :
  expval_PauliZ num_wires w (q_coherence_scan_state theta (c0, c1))
  = expval_PauliZ num_wires w (q_coherence_scan_state theta (c0, c1')).
Proof.
  unfold expval_PauliZ. apply Rsum_ext. intros x _.
  now rewrite !q_coherence_scan_prob.
Qed.

Lemma q_coherence_scan_spec_ignores_c1 (theta c0 c1 c1' : R) :
  q_coherence_scan_spec theta (c0, c1) = q_coherence_scan_spec theta (c0, c1').
Proof.
  rewrite !q_coherence_scan_spec_unfold. cbv zeta.
  pose proof (q_coherence_scan_expval_c1 theta c0 c1 c1') as E.
  rewrite (E 0%nat), (E 1%nat), (E 2%nat), (E 3%nat), (E 4%nat),
          (E 5%nat), (E 6%nat).
  reflexivity.
Qed.

End ScanFacts.

(** ** The scan in closed form *)

Module ClosedForm.
Import QubitFacts ScanFacts.

Lemma expval_PauliZ_parity (n w : nat) (psi : state) :
  expval_PauliZ n w psi = expval_diag n (parity [w]) psi.
Proof.
  unfold expval_PauliZ, expval_diag. apply Rsum_ext. intros x _.
  unfold parity; simpl. ring.
Qed.

Lemma Z_eigenvalue_sqr (w : nat) (x : basis) :
  Z_eigenvalue w x * Z_eigenvalue w x = 1.
Proof. unfold Z_eigenvalue. destruct (bit w x); ring. Qed.

Lemma expval_diag_ext (n : nat) (F G : basis -> R) (psi : state) :
  (forall x, length x = n -> F x = G x) ->
  expval_diag n F psi = expval_diag n G psi.
Proof.
  intros H. apply Rsum_ext. intros x Hx.
  rewrite H; [reflexivity|]. now apply in_all_bits.
Qed.

(** *** CNOT, moved onto the observable *)

Lemma Z_eigenvalue_cnot (c t w : nat) (x : basis) :
  c <> t -> (t < length x)%nat ->
  Z_eigenvalue w (cnot_basis c t x)
  = if Nat.eqb w t then Z_eigenvalue t x * Z_eigenvalue c x
    else Z_eigenvalue w x.
Proof.
  intros Hct Ht. unfold Z_eigenvalue, cnot_basis.
  destruct (Nat.eqb_spec w t) as [->|Hwt].
  - rewrite bit_upd_same by exact Ht.
    destruct (bit t x), (bit c x); simpl; ring.
  - now rewrite bit_upd_other.
Qed.

Lemma parity_app (S1 S2 : list nat) (x : basis) :
  parity (S1 ++ S2) x = parity S1 x * parity S2 x.
Proof.
  unfold parity. induction S1 as [|w S1 IH]; simpl; [ring|].
  rewrite IH. ring.
Qed.

Lemma parity_cnot (c t : nat) (S : list nat) (x : basis) :
  c <> t -> (t < length x)%nat ->
  parity S (cnot_basis c t x) = parity (pull_cnot c t S) x.
Proof.
  intros Hct Ht. induction S as [|w S IH].
  - reflexivity.
  - change (pull_cnot c t (w :: S))
      with ((if Nat.eqb w t then [t; c] else [w]) ++ pull_cnot c t S).
    rewrite parity_app, <- IH.
    change (parity (w :: S) (cnot_basis c t x))
      with (Z_eigenvalue w (cnot_basis c t x) * parity S (cnot_basis c t x)).
    rewrite Z_eigenvalue_cnot by assumption.
    destruct (Nat.eqb w t); unfold parity; simpl; ring.
Qed.

Lemma expval_diag_cnot (n c t : nat) (S : list nat) (psi : state) :
  c <> t -> (t < n)%nat ->
  expval_diag n (parity S) (apply_cnot c t psi)
  = expval_diag n (parity (pull_cnot c t S)) psi.
Proof.
  intros Hct Ht. unfold expval_diag, apply_cnot, prob.
  rewrite <- (Rsum_cnot_basis
                (fun x => parity (pull_cnot c t S) x * Cx.norm2 (psi x))
                c t n Hct).
  apply Rsum_ext. intros x Hx. apply in_all_bits in Hx.
  rewrite <- parity_cnot, cnot_basis_involutive; try assumption.
  - reflexivity.
  - rewrite length_cnot_basis. lia.
Qed.

(** *** One-wire gates *)

Lemma expval_diag_apply1_other (U : mat2) :
  unitary U ->
  forall (w n : nat) (F : basis -> R) (psi : state),
    (w < n)%nat -> indep_of_wire w F ->
    expval_diag n F (apply1 U w psi) = expval_diag n F psi.
Proof.
  intros HU. unfold expval_diag.
  induction w as [|w IH]; intros [|n] F psi Hw HF; try lia.
  - rewrite !Rsum_all_bits_S, <- !Rsum_plus.
    apply Rsum_ext. intros x _.
    generalize (HF false (true :: x)); simpl; intros ->.
    rewrite <- !Rmult_plus_distr_l. f_equal.
    unfold prob, apply1; simpl.
    now apply unitary_isometry.
  - rewrite !Rsum_all_bits_S. f_equal.
    + exact (IH n (fun y => F (false :: y)) (fun y => psi (false :: y))
                ltac:(lia) (fun b y => HF b (false :: y))).
    + exact (IH n (fun y => F (true :: y)) (fun y => psi (true :: y))
                ltac:(lia) (fun b y => HF b (true :: y))).
Qed.

Lemma expval_diag_apply1_vanishing (U : mat2) :
  forall (w n : nat) (F : basis -> R) (psi : state),
    (w < n)%nat -> indep_of_wire w F -> vanishes_on w psi ->
    expval_diag n (fun x => Z_eigenvalue w x * F x) (apply1 U w psi)
    = (Cx.norm2 (U false false) - Cx.norm2 (U true false))
      * expval_diag n F psi.
Proof.
  unfold expval_diag.
  induction w as [|w IH]; intros [|n] F psi Hw HF Hpsi; try lia.
  - rewrite !Rsum_all_bits_S.
    rewrite (Rsum_ext (fun x => F (true :: x) * prob psi (true :: x))
                      (fun _ => 0)), Rsum_zero.
    2:{ intros x _. unfold prob. rewrite (Hpsi (true :: x) eq_refl).
        unfold Cx.norm2, Cx.zero, Cx.re, Cx.im; simpl. ring. }
    rewrite <- Rsum_plus. rewrite Rplus_0_r.
    induction (all_bits n) as [|x l IHl]; simpl; [ring|].
    rewrite IHl.
    generalize (HF false (true :: x)); simpl; intros ->.
    unfold prob, apply1, Z_eigenvalue, bit; simpl.
    rewrite (Hpsi (true :: x) eq_refl).
    rewrite !Cx_mul_zero_r, !Cx_add_zero_r, !Cx_norm2_mul. ring.
  - rewrite !Rsum_all_bits_S.
    rewrite Rmult_plus_distr_l. f_equal.
    + exact (IH n (fun y => F (false :: y)) (fun y => psi (false :: y))
                ltac:(lia) (fun b y => HF b (false :: y))
                (fun y Hy => Hpsi (false :: y) Hy)).
    + exact (IH n (fun y => F (true :: y)) (fun y => psi (true :: y))
                ltac:(lia) (fun b y => HF b (true :: y))
                (fun y Hy => Hpsi (true :: y) Hy)).
Qed.

Lemma apply1_RZ_pointwise (phi : R) (w : nat) (psi : state) (x : basis) :
  apply1 (RZ_matrix phi) w psi x
  = Cx.mul (Cx.exp_i (if bit w x then phi / 2 else - (phi / 2))) (psi x).
Proof.
  unfold apply1, RZ_matrix, mk_mat2.
  destruct (bit w x) eqn:Hb.
  - assert (Hx : upd w true x = x) by (rewrite <- Hb; apply upd_bit).
    now rewrite Hx, Cx_mul_zero_l, Cx_add_zero_l.
  - assert (Hx : upd w false x = x) by (rewrite <- Hb; apply upd_bit).
    now rewrite Hx, Cx_mul_zero_l, Cx_add_zero_r.
Qed.

Lemma prob_apply1_RZ (phi : R) (w : nat) (psi : state) (x : basis) :
  prob (apply1 (RZ_matrix phi) w psi) x = prob psi x.
Proof.
  unfold prob. rewrite apply1_RZ_pointwise, Cx_norm2_mul, Cx_norm2_exp_i.
  ring.
Qed.

Lemma expval_diag_RZ (n : nat) (F : basis -> R) (phi : R) (w : nat)
      (psi : state) :
  expval_diag n F (apply1 (RZ_matrix phi) w psi) = expval_diag n F psi.
Proof.
  apply Rsum_ext. intros x _. now rewrite prob_apply1_RZ.
Qed.

Lemma apply1_RZ_vanishes (phi : R) (v w : nat) (psi : state) :
  vanishes_on v psi -> vanishes_on v (apply1 (RZ_matrix phi) w psi).
Proof.
  intros H x Hx. now rewrite apply1_RZ_pointwise, (H x Hx), Cx_mul_zero_r.
Qed.

(** Where the state has no amplitude with wire [w] at 1, PauliZ on [w]
    reads 1. *)
Lemma expval_diag_vanishing (n w : nat) (F : basis -> R) (psi : state) :
  vanishes_on w psi ->
  expval_diag n (fun x => Z_eigenvalue w x * F x) psi = expval_diag n F psi.
Proof.
  intros H. apply Rsum_ext. intros x _. unfold Z_eigenvalue.
  destruct (bit w x) eqn:Hb; [|ring].
  unfold prob. rewrite (H x Hb).
  unfold Cx.norm2, Cx.zero, Cx.re, Cx.im; simpl. ring.
Qed.

Lemma parity_indep (w : nat) (S : list nat) :
  ~ In w S -> indep_of_wire w (parity S).
Proof.
  intros Hw b x. unfold parity.
  induction S as [|v S IH]; simpl; [reflexivity|].
  rewrite IH by (intros H; apply Hw; now right).
  unfold Z_eigenvalue. rewrite bit_upd_other; [reflexivity|].
  intros ->. apply Hw. now left.
Qed.

Lemma expval_diag_parity_nil (n : nat) (psi : state) :
  expval_diag n (parity []) psi = total_prob n psi.
Proof.
  apply Rsum_ext. intros x _. unfold parity; simpl. ring.
Qed.

Lemma cos_half_angle (t : R) :
  cos (t / 2) * cos (t / 2) - sin (t / 2) * sin (t / 2) = cos t.
Proof.
  rewrite <- cos_2a. f_equal. field.
Qed.

(** *** The circuit, wire by wire *)

Lemma q_coherence_scan_tape_parts (theta c0 c1 : R) :
  q_coherence_scan_tape theta (c0, c1)
  = scan_rotations theta c0 c1 ++ scan_cnots.
Proof. reflexivity. Qed.

Lemma cnot_ring_pull (S : list nat) (psi : state) :
  expval_diag 7 (parity S) (execute scan_cnots psi)
  = expval_diag 7
      (parity (pull_cnot 0 1 (pull_cnot 1 2 (pull_cnot 2 3 (pull_cnot 3 4
                (pull_cnot 4 5 (pull_cnot 5 6 (pull_cnot 6 0 S))))))))
      psi.
Proof.
  unfold scan_cnots, execute. simpl.
  now rewrite !expval_diag_cnot by lia.
Qed.

Lemma RY_contrast (phi : R) :
  Cx.norm2 (RY_matrix phi false false) - Cx.norm2 (RY_matrix phi true false)
  = cos phi.
Proof.
  rewrite <- cos_half_angle.
  unfold RY_matrix, mk_mat2, Cx.norm2, Cx.of_R, Cx.re, Cx.im; simpl. ring.
Qed.

Lemma RX_contrast (phi : R) :
  Cx.norm2 (RX_matrix phi false false) - Cx.norm2 (RX_matrix phi true false)
  = cos phi.
Proof.
  rewrite <- cos_half_angle.
  unfold RX_matrix, mk_mat2, Cx.norm2, Cx.of_R, Cx.re, Cx.im; simpl. ring.
Qed.

Lemma Hadamard_contrast :
  Cx.norm2 (Hadamard_matrix false false)
  - Cx.norm2 (Hadamard_matrix true false) = 0.
Proof.
  unfold Hadamard_matrix, mk_mat2, Cx.norm2, Cx.of_R, Cx.re, Cx.im; simpl.
  ring.
Qed.

Ltac wire_vanishes :=
  repeat first [ apply apply1_RZ_vanishes
               | apply apply1_vanishes; [lia|] ];
  apply zero_state_vanishes.

Ltac parity_ignores :=
  apply parity_indep; simpl; intuition lia.

Ltac gate_side := first [ lia | parity_ignores | wire_vanishes ].

(** Gates on wires the observable does not look at, peeled off the state. *)
Ltac peel_gates :=
  repeat first
    [ rewrite expval_diag_RZ
    | rewrite (expval_diag_apply1_other _ unitary_Hadamard) by gate_side ].

Lemma rotations_expval_10 (theta c0 c1 : R) :
  expval_diag 7 (parity [1; 0]%nat)
              (execute (scan_rotations theta c0 c1) zero_state)
  = cos theta * cos c0.
Proof.
  unfold scan_rotations, execute. simpl.
  peel_gates.
  change (parity [1; 0]%nat)
    with (fun x => Z_eigenvalue 1 x * parity [0%nat] x).
  rewrite expval_diag_apply1_vanishing by gate_side.
  change (parity [0%nat]) with (fun x => Z_eigenvalue 0 x * parity [] x).
  rewrite expval_diag_apply1_vanishing by gate_side.
  rewrite expval_diag_parity_nil, total_prob_zero_state.
  rewrite RX_contrast, RY_contrast. ring.
Qed.

Lemma rotations_vanish_2 (theta c0 c1 : R) :
  vanishes_on 2 (execute (scan_rotations theta c0 c1) zero_state).
Proof. unfold scan_rotations, execute. simpl. wire_vanishes. Qed.

Lemma rotations_vanish_3 (theta c0 c1 : R) :
  vanishes_on 3 (execute (scan_rotations theta c0 c1) zero_state).
Proof. unfold scan_rotations, execute. simpl. wire_vanishes. Qed.

Lemma rotations_expval_210 (theta c0 c1 : R) :
  expval_diag 7 (parity [2; 1; 0]%nat)
              (execute (scan_rotations theta c0 c1) zero_state)
  = cos theta * cos c0.
Proof.
  change (parity [2; 1; 0]%nat)
    with (fun x => Z_eigenvalue 2 x * parity [1; 0]%nat x).
  rewrite expval_diag_vanishing by apply rotations_vanish_2.
  apply rotations_expval_10.
Qed.

Lemma rotations_expval_3210 (theta c0 c1 : R) :
  expval_diag 7 (parity [3; 2; 1; 0]%nat)
              (execute (scan_rotations theta c0 c1) zero_state)
  = cos theta * cos c0.
Proof.
  change (parity [3; 2; 1; 0]%nat)
    with (fun x => Z_eigenvalue 3 x * parity [2; 1; 0]%nat x).
  rewrite expval_diag_vanishing by apply rotations_vanish_3.
  apply rotations_expval_210.
Qed.

(** A parity that looks at one of the wires 4, 5, 6 averages to zero: the
    Hadamard on that wire made both readings equally likely. *)
Lemma rotations_expval_4 (theta c0 c1 : R) :
  expval_diag 7 (parity [4; 3; 2; 1; 0]%nat)
              (execute (scan_rotations theta c0 c1) zero_state) = 0.
Proof.
  unfold scan_rotations, execute. simpl.
  peel_gates.
  change (parity [4; 3; 2; 1; 0]%nat)
    with (fun x => Z_eigenvalue 4 x * parity [3; 2; 1; 0]%nat x).
  rewrite expval_diag_apply1_vanishing by gate_side.
  rewrite Hadamard_contrast. ring.
Qed.

Lemma rotations_expval_5 (theta c0 c1 : R) :
  expval_diag 7 (parity [5; 4; 3; 2; 1; 0]%nat)
              (execute (scan_rotations theta c0 c1) zero_state) = 0.
Proof.
  unfold scan_rotations, execute. simpl.
  peel_gates.
  change (parity [5; 4; 3; 2; 1; 0]%nat)
    with (fun x => Z_eigenvalue 5 x * parity [4; 3; 2; 1; 0]%nat x).
  rewrite expval_diag_apply1_vanishing by gate_side.
  rewrite Hadamard_contrast. ring.
Qed.

Lemma rotations_expval_6 (theta c0 c1 : R) (S : list nat) :
  ~ In 6%nat S ->
  expval_diag 7 (parity (6%nat :: S))
              (execute (scan_rotations theta c0 c1) zero_state) = 0.
Proof.
  intros HS. unfold scan_rotations, execute. simpl.
  rewrite expval_diag_RZ.
  change (parity (6%nat :: S))
    with (fun x => Z_eigenvalue 6 x * parity S x).
  rewrite expval_diag_apply1_vanishing;
    [ | lia | now apply parity_indep | wire_vanishes ].
  rewrite Hadamard_contrast. ring.
Qed.

Lemma parity_drop_wire0_twice (S : list nat) (x : basis) :
  parity (0%nat :: S ++ [0%nat]) x = parity S x.
Proof.
  change (parity (0%nat :: S ++ [0%nat]) x)
    with (Z_eigenvalue 0 x * parity (S ++ [0%nat]) x).
  rewrite parity_app.
  change (parity [0%nat] x) with (Z_eigenvalue 0 x * 1).
  generalize (Z_eigenvalue_sqr 0 x). intros H.
  transitivity (Z_eigenvalue 0 x * Z_eigenvalue 0 x * parity S x); [ring|].
  rewrite H. ring.
Qed.

(** The seven expectation values. *)
Lemma q_coherence_scan_expvals (theta c0 c1 : R) :
  let e w := expval_PauliZ num_wires w
               (q_coherence_scan_state theta (c0, c1)) in
  e 0%nat = 0 /\ e 1%nat = cos theta * cos c0
  /\ e 2%nat = cos theta * cos c0 /\ e 3%nat = cos theta * cos c0
  /\ e 4%nat = 0 /\ e 5%nat = 0 /\ e 6%nat = 0.
Proof.
  cbv zeta. unfold q_coherence_scan_state, num_wires.
  rewrite q_coherence_scan_tape_parts, execute_app.
  rewrite !expval_PauliZ_parity, !cnot_ring_pull.
  cbn [pull_cnot flat_map Nat.eqb app].
  repeat split.
  - rewrite (expval_diag_ext 7 _ (parity [6; 5; 4; 3; 2; 1]%nat)).
    + apply rotations_expval_6. simpl. intuition lia.
    + intros x _.
      exact (parity_drop_wire0_twice [6; 5; 4; 3; 2; 1]%nat x).
  - apply rotations_expval_10.
  - apply rotations_expval_210.
  - apply rotations_expval_3210.
  - apply rotations_expval_4.
  - apply rotations_expval_5.
  - apply rotations_expval_6. simpl. intuition lia.
Qed.

(** The value of the scan in closed form. *)
Lemma q_coherence_scan_spec_closed_form (theta c0 c1 : R) :
  q_coherence_scan_spec theta (c0, c1) = 3 * (cos theta * cos c0) / 7.
Proof.
  rewrite q_coherence_scan_spec_unfold. cbv zeta.
  destruct (q_coherence_scan_expvals theta c0 c1)
    as (E0 & E1 & E2 & E3 & E4 & E5 & E6).
  cbv zeta in E0, E1, E2, E3, E4, E5, E6.
  rewrite E0, E1, E2, E3, E4, E5, E6. field.
Qed.

End ClosedForm.

(** ** The angle and the colour average *)

Module ProfileFacts.

Lemma fold_left_Rplus_acc (l : list R) (a : R) :
  fold_left Rplus l a = a + fold_left Rplus l 0.
Proof.
  revert a. induction l as [|x l IH]; intros a; simpl.
  - lra.
  - rewrite (IH (a + x)), (IH (0 + x)). lra.
Qed.

Lemma py_sum_cons (x : R) (l : list R) : py_sum (x :: l) = x + py_sum l.
Proof.
  unfold py_sum; simpl. rewrite fold_left_Rplus_acc. lra.
Qed.

Lemma py_sum_bounds (lo hi : R) (l : list R) :
  Forall (fun x => lo <= x <= hi) l ->
  lo * INR (length l) <= py_sum l <= hi * INR (length l).
Proof.
  induction 1 as [|x l Hx Hl IH].
  - unfold py_sum; simpl. lra.
  - rewrite py_sum_cons.
    change (length (x :: l)) with (S (length l)). rewrite S_INR. lra.
Qed.

Lemma np_linalg_norm_nonneg (v : list R) : 0 <= np_linalg_norm v.
Proof. apply sqrt_pos. Qed.

Lemma py_min_cases (a b : R) :
  (b < a /\ py_min a b = b) \/ (a <= b /\ py_min a b = a).
Proof.
  unfold py_min. destruct (Rlt_dec b a) as [H|H]; [left | right]; split;
    try reflexivity; lra.
Qed.

Lemma derive_theta_range (v : list R) : 0 <= derive_theta v <= PI.
Proof.
  unfold derive_theta.
  generalize (np_linalg_norm_nonneg v) PI_RGT_0.
  destruct (py_min_cases (np_linalg_norm v) 1) as [[H ->]|[H ->]];
    intros; nra.
Qed.

Lemma derive_theta_saturates (v : list R) :
  1 <= np_linalg_norm v -> derive_theta v = PI.
Proof.
  intros Hv. unfold derive_theta.
  destruct (py_min_cases (np_linalg_norm v) 1) as [[H ->]|[H ->]].
  - ring.
  - replace (np_linalg_norm v) with 1 by lra. ring.
Qed.

Lemma channel_mean_bounds (ch : pixel -> Z) (lo hi : Z) (img : image) :
  pixels img <> [] ->
  Forall (fun p => (lo <= ch p <= hi)%Z) (pixels img) ->
  IZR lo <= channel_mean ch img <= IZR hi.
Proof.
  intros Hne Hall. unfold channel_mean.
  set (l := pixels img) in *.
  assert (Hn : 0 < INR (length l)).
  { apply lt_0_INR. destruct l; [congruence | simpl; lia]. }
  assert (Hb : Forall (fun x => IZR lo <= x <= IZR hi)
                      (map (fun p => IZR (ch p)) l)).
  { apply List.Forall_map. eapply List.Forall_impl; [|exact Hall].
    intros p [H1 H2]. split; now apply IZR_le. }
  apply py_sum_bounds in Hb. rewrite length_map in Hb.
  set (s := py_sum _) in *. set (n := INR (length l)) in *.
  assert (Hs : s = s / n * n) by (field; lra).
  generalize dependent (s / n). intros m Hs. subst s. nra.
Qed.

End ProfileFacts.

(** ** The run, step by step *)

Section RunFacts.

Context (lib : PyLib) (w : World).

(** The return statement fails at its first addition, [0 + <measurement>],
    whatever the arguments. *)
Lemma q_coherence_scan_body_raises (theta : R) (color_avg : R * R) :
  q_coherence_scan_body theta color_avg
  = (mkQueue (q_coherence_scan_tape theta color_avg)
             [ExpectationMP (PauliZ 0)],
     inl TypeError).
Proof. reflexivity. Qed.

Lemma q_coherence_scan_raises (theta : R) (color_avg : R * R) :
  q_coherence_scan theta color_avg = inl TypeError.
Proof. reflexivity. Qed.

(** [run_analysis] written out: where each exception leaves the run, and
    what the run has done by then.  Nothing after the call of
    [q_coherence_scan] is reached. *)
Lemma run_analysis_eq (img_path : string) (st : St) :
  run_analysis lib w img_path st =
  let t0 := [LogInfo "Running quantum integrity scan on image: %s"
                     [JStr img_path]] in
  match load_image_file w img_path with
  | inl e => (mkSt (disk st) (trace st ++ t0), inl e)
  | inr img =>
      match face_encodings lib img with
      | [] => (mkSt (disk st) (trace st ++ t0),
               inl (ValueError "No face found in image."))
      | vector :: _ =>
          let theta := derive_theta vector in
          let color_avg := derive_color_avg lib img in
          (mkSt (disk st) (trace st ++ t0 ++ [CircuitRun theta color_avg]),
           inl TypeError)
      end
  end.
Proof.
  cbv beta iota zeta
      delta [run_analysis bind emit lift ret raise from_image run_circuit].
  cbn [disk trace].
  destruct (load_image_file w img_path) as [e|img]; [reflexivity|].
  destruct (face_encodings lib img) as [|vector rest]; [reflexivity|].
  cbn [disk trace].
  rewrite q_coherence_scan_raises, <- app_assoc. reflexivity.
Qed.

Lemma from_image_eq (path : string) (st : St) :
  from_image lib w path st =
  match load_image_file w path with
  | inl e => (st, inl e)
  | inr img =>
      match face_encodings lib img with
      | [] => (st, inl (ValueError "No face found in image."))
      | vector :: _ =>
          (st, inr (vector, derive_theta vector, derive_color_avg lib img))
      end
  end.
Proof.
  unfold from_image, bind, lift.
  destruct (load_image_file w path) as [e|img]; [reflexivity|].
  now destruct (face_encodings lib img).
Qed.

(** When [ask] fails: the call itself raised (credential, network), the
    response carried no choice or no text, or the text was not JSON. *)
Lemma ask_reply_failure (n : nat) (prompt : string) (max_tokens : nat)
      (e : exn) :
  ask_reply lib w n prompt max_tokens = inl e <->
  let res := ChatCompletion_create w (api_key w) n MODEL [("user", prompt)]
                                   max_tokens in
  res = inl e
  \/ exists r, res = inr r /\
       ((choices r = [] /\ e = IndexError)
        \/ exists c cs, choices r = c :: cs /\
             ((message_content c = None /\ e = TypeError)
              \/ exists content, message_content c = Some content
                                 /\ json_loads lib content = None
                                 /\ e = JSONDecodeError)).
Proof.
  unfold ask_reply. cbv zeta.
  destruct (ChatCompletion_create w (api_key w) n MODEL _ max_tokens)
    as [e'|r].
  { split; [intros [= ->]; now left|].
    intros [[= ->]|(r & [=] & _)]. reflexivity. }
  destruct (choices r) as [|c cs] eqn:Hc.
  { split.
    - intros [= <-]. right. exists r. split; [reflexivity|]. now left.
    - intros [[=]|(r' & [= <-] & [[_ ->]|(c & cs & Hc' & _)])];
        [reflexivity | congruence]. }
  destruct (message_content c) as [content|] eqn:Hm.
  2:{ split.
      - intros [= <-]. right. exists r. split; [reflexivity|]. right.
        exists c, cs. split; [exact Hc|]. now left.
      - intros [[=]|(r' & [= <-] & [[Hc' _]|(c' & cs' & Hc' & H)])];
          [congruence|].
        rewrite Hc in Hc'. injection Hc' as <- <-.
        destruct H as [[_ ->]|(content & Hm' & _)];
          [reflexivity | congruence]. }
  destruct (json_loads lib content) as [v|] eqn:Hj.
  - split; [discriminate|].
    intros [[=]|(r' & [= <-] & [[Hc' _]|(c' & cs' & Hc' & H)])];
      [congruence|].
    rewrite Hc in Hc'. injection Hc' as <- <-.
    destruct H as [[Hm' _]|(content' & Hm' & Hj' & _)]; congruence.
  - split.
    + intros [= <-]. right. exists r. split; [reflexivity|]. right.
      exists c, cs. split; [exact Hc|]. right. now exists content.
    + intros [[=]|(r' & [= <-] & [[Hc' _]|(c' & cs' & Hc' & H)])];
        [congruence|].
      rewrite Hc in Hc'. injection Hc' as <- <-.
      destruct H as [[Hm' _]|(content' & _ & _ & ->)];
        [congruence | reflexivity].
Qed.

End RunFacts.

(* ===================================================================== *)
(** * The properties of the specification *)
(* ===================================================================== *)

(** C1. Whatever [theta] and [color_avg] are, [q_coherence_scan] queues the
    same sixteen gates on the same wires (RY, RX, RZ, three times Hadamard
    then RZ, a ring of seven CNOTs) and then raises [TypeError]: the [sum] of
    its return statement starts with 0 plus the measurement object of
    wire 0, which Python cannot add.  It returns no mean. *)
Theorem q_coherence_scan_raises_TypeError (theta : R) (color_avg : R * R) :
  q_coherence_scan theta color_avg = inl TypeError
  /\ q_coherence_scan_body theta color_avg
     = (mkQueue (q_coherence_scan_tape theta color_avg)
                [ExpectationMP (PauliZ 0)],
        inl TypeError)
  /\ map op_shape (q_coherence_scan_tape theta color_avg)
     = q_coherence_scan_layout.
Proof.
  split; [apply q_coherence_scan_raises|].
  split; [apply q_coherence_scan_body_raises|].
  apply ScanFacts.q_coherence_scan_tape_layout.
Qed.

(** C2. The angle [min(norm(v), 1.0) * pi] derived from a face vector is a
    function of the vector alone (equal vectors give equal angles) and lies
    between 0 and pi. *)
Theorem derive_theta_deterministic_in_range (v : list R) :
  derive_theta v = py_min (np_linalg_norm v) 1 * PI
  /\ 0 <= derive_theta v <= PI
  /\ (forall v', v' = v -> derive_theta v' = derive_theta v).
Proof.
  split; [reflexivity|].
  split; [apply ProfileFacts.derive_theta_range|].
  now intros v' ->.
Qed.

(** C3. When the HSV conversion of an image with at least one pixel has
    every hue in [0, 180) and every saturation in [0, 255], both components
    of the colour average (mean hue / 180, mean saturation / 255) lie between
    0 and 1. *)
Theorem derive_color_avg_in_unit_square (lib : PyLib) (img : image) :
  pixels (cvtColor_RGB2HSV lib img) <> [] ->
  Forall (fun p => (0 <= channel0 p < 180)%Z /\ (0 <= channel1 p <= 255)%Z)
         (pixels (cvtColor_RGB2HSV lib img)) ->
  derive_color_avg lib img
  = (channel_mean channel0 (cvtColor_RGB2HSV lib img) / 180,
     channel_mean channel1 (cvtColor_RGB2HSV lib img) / 255)
  /\ 0 <= fst (derive_color_avg lib img) <= 1
  /\ 0 <= snd (derive_color_avg lib img) <= 1.
Proof.
  intros Hne Hall. split; [reflexivity|].
  unfold derive_color_avg, mean_axis01; cbn [fst snd].
  assert (Hh : IZR 0 <= channel_mean channel0 (cvtColor_RGB2HSV lib img)
               <= IZR 179).
  { apply ProfileFacts.channel_mean_bounds; [exact Hne|].
    eapply List.Forall_impl; [|exact Hall]. cbv beta. lia. }
  assert (Hs : IZR 0 <= channel_mean channel1 (cvtColor_RGB2HSV lib img)
               <= IZR 255).
  { apply ProfileFacts.channel_mean_bounds; [exact Hne|].
    eapply List.Forall_impl; [|exact Hall]. cbv beta. lia. }
  lra.
Qed.

Lemma derive_color_avg_in_unit_square_witness :
  0 <= fst (derive_color_avg (Sample.lib []) Sample.rgb) <= 1
  /\ 0 <= snd (derive_color_avg (Sample.lib []) Sample.rgb) <= 1.
Proof.
  apply (derive_color_avg_in_unit_square (Sample.lib []) Sample.rgb).
  - discriminate.
  - repeat constructor; cbn; lia.
Defined.


(** C9. A face vector of Euclidean norm at least 1 gives the angle pi
    exactly: the clamp [min(norm, 1.0)] saturates. *)
Theorem derive_theta_saturates_at_pi (v : list R) :
  1 <= np_linalg_norm v -> derive_theta v = PI.
Proof. apply ProfileFacts.derive_theta_saturates. Qed.

Lemma derive_theta_saturates_at_pi_witness :
  1 <= np_linalg_norm Sample.face /\ derive_theta Sample.face = PI.
Proof.
  assert (H : 1 <= np_linalg_norm Sample.face).
  { unfold np_linalg_norm, Sample.face, py_sum; simpl.
    replace (0 + 1 * 1 + 0 * 0) with 1 by ring.
    rewrite sqrt_1. lra. }
  split; [exact H|].
  exact (derive_theta_saturates_at_pi Sample.face H).
Defined.

(** C4. When the image loads and no face is detected in it, [from_image]
    raises [ValueError("No face found in image.")] and [run_analysis] ends
    with that error having only logged its first line: no circuit was run,
    no request sent, no file written.  When a face is detected [from_image]
    returns, and the no-face error is the only one it raises itself. *)
Theorem no_face_aborts_the_run
        (lib : PyLib) (w : World) (path : string) (st : St) (img : image) :
  load_image_file w path = inr img ->
  (face_encodings lib img = [] ->
   from_image lib w path st = (st, inl (ValueError "No face found in image."))
   /\ run_analysis lib w path st
      = (mkSt (disk st)
              (trace st
               ++ [LogInfo "Running quantum integrity scan on image: %s"
                           [JStr path]]),
         inl (ValueError "No face found in image.")))
  /\ (face_encodings lib img <> [] ->
      exists profile, from_image lib w path st = (st, inr profile))
  /\ (forall st' e,
         from_image lib w path st = (st', inl e) ->
         face_encodings lib img = []
         /\ e = ValueError "No face found in image.").
Proof.
  intros Hload. rewrite run_analysis_eq, from_image_eq, Hload. cbv zeta.
  destruct (face_encodings lib img) as [|vector rest].
  - split; [now intros _|]. split; [congruence|].
    now intros st' e [= _ <-].
  - split; [discriminate|]. split.
    + intros _. eexists. reflexivity.
    + intros st' e [=].
Qed.

Lemma no_face_aborts_the_run_witness :
  run_analysis (Sample.lib []) (Sample.world []) IMAGE_PATH Sample.st0
  = (mkSt ∅ [LogInfo "Running quantum integrity scan on image: %s"
                     [JStr IMAGE_PATH]],
     inl (ValueError "No face found in image.")).
Proof.
  apply (no_face_aborts_the_run (Sample.lib []) (Sample.world []) IMAGE_PATH
                                Sample.st0 Sample.rgb);
    reflexivity.
Defined.

(** C5. No run completes and none writes a file: every run ends in an
    exception with the disk and the writes of its trace as they were. *)
Theorem no_run_completes_or_writes
        (lib : PyLib) (w : World) (path : string) (st : St) :
  exists st' e,
    run_analysis lib w path st = (st', inl e)
    /\ disk st' = disk st
    /\ writes_of (trace st') = writes_of (trace st).
Proof.
  rewrite run_analysis_eq. cbv zeta. unfold writes_of.
  destruct (load_image_file w path) as [e|img].
  { do 2 eexists. split; [reflexivity|]. split; [reflexivity|].
    cbn [trace]. rewrite List.filter_app. apply app_nil_r. }
  destruct (face_encodings lib img) as [|vector rest].
  - do 2 eexists. split; [reflexivity|]. split; [reflexivity|].
    cbn [trace]. rewrite List.filter_app. apply app_nil_r.
  - do 2 eexists. split; [reflexivity|]. split; [reflexivity|].
    cbn [trace]. rewrite List.filter_app. apply app_nil_r.
Qed.




(** C10. With a face in the image and a first response that would carry
    risk_score 7, the run ends with the [TypeError] of [q_coherence_scan]
    before asking for it: no report is written, so there is none for the
    value to be copied into. *)
Theorem out_of_range_risk_score_never_written :
  run_analysis (Sample.lib [Sample.face])
               (Sample.world [Sample.text "first"; Sample.text "second"])
               IMAGE_PATH Sample.st0
  = (mkSt ∅
          [LogInfo "Running quantum integrity scan on image: %s"
                   [JStr IMAGE_PATH];
           CircuitRun (derive_theta Sample.face)
                      (derive_color_avg (Sample.lib [Sample.face])
                                        Sample.rgb)],
     inl TypeError)
  /\ (forall prompt,
         ask_reply (Sample.lib [Sample.face])
                   (Sample.world [Sample.text "first"; Sample.text "second"])
                   0 prompt 1000
         = inr Sample.reply1)
  /\ getitem Sample.reply1 "risk_score" = inr (JInt 7).
Proof.
  split; [|split].
  - rewrite run_analysis_eq. reflexivity.
  - reflexivity.
  - reflexivity.
Qed.


(* ===================================================================== *)
(** * Further properties of the script *)
(* ===================================================================== *)

(** ** Supporting facts *)

Module MoreFacts.

Lemma py_sum_squares (v : list R) :
  0 <= py_sum (map (fun a => a * a) v)
  /\ (py_sum (map (fun a => a * a) v) = 0 <-> Forall (fun a => a = 0) v).
Proof.
  induction v as [|a v [IH0 IH]].
  - unfold py_sum; simpl. split; [lra|]. split; [constructor | reflexivity].
  - change (map (fun a => a * a) (a :: v))
      with (a * a :: map (fun a => a * a) v).
    rewrite ProfileFacts.py_sum_cons. split; [nra|]. split.
    + intros H. constructor; [nra|]. apply IH. nra.
    + intros H. inversion H as [|? ? Ha Hv]; subst.
      apply IH in Hv. rewrite Hv. ring.
Qed.

Lemma np_linalg_norm_zero (v : list R) :
  np_linalg_norm v = 0 <-> Forall (fun a => a = 0) v.
Proof.
  unfold np_linalg_norm.
  destruct (py_sum_squares v) as [H0 H]. split.
  - intros Hs. apply H. now apply sqrt_eq_0.
  - intros Hv. apply H in Hv. rewrite Hv. apply sqrt_0.
Qed.

End MoreFacts.

(** ** The image profile *)

(** X4. Below the clamp the angle is the norm times pi; the angle never
    decreases when the norm grows; and a vector whose components are all 0
    (an empty vector included) gives the angle 0. *)
Theorem derive_theta_linear_monotone_zero (v v' : list R) :
  (np_linalg_norm v <= 1 -> derive_theta v = np_linalg_norm v * PI)
  /\ (np_linalg_norm v <= np_linalg_norm v' ->
      derive_theta v <= derive_theta v')
  /\ (Forall (fun a => a = 0) v -> derive_theta v = 0).
Proof.
  generalize PI_RGT_0 (ProfileFacts.np_linalg_norm_nonneg v)
             (ProfileFacts.np_linalg_norm_nonneg v').
  intros Hpi Hv Hv'. unfold derive_theta.
  destruct (ProfileFacts.py_min_cases (np_linalg_norm v) 1)
    as [[H ->]|[H ->]];
    destruct (ProfileFacts.py_min_cases (np_linalg_norm v') 1)
      as [[H' ->]|[H' ->]].
  all: split; [intros; try lra; nra|].
  all: split; [intros; nra|].
  all: rewrite <- MoreFacts.np_linalg_norm_zero.
  all: intros E; nra.
Qed.

(** ** The run *)

(** X6. When the image cannot be loaded, the loader's exception is what
    [from_image] and [run_analysis] end with; the run has logged its first
    line and done nothing else. *)
Theorem unreadable_image_aborts_the_run
        (lib : PyLib) (w : World) (path : string) (st : St) (e : exn) :
  load_image_file w path = inl e ->
  from_image lib w path st = (st, inl e)
  /\ run_analysis lib w path st
     = (mkSt (disk st)
             (trace st
              ++ [LogInfo "Running quantum integrity scan on image: %s"
                          [JStr path]]),
        inl e).
Proof.
  intros H. rewrite run_analysis_eq, from_image_eq, H. cbv zeta.
  split; reflexivity.
Qed.

Lemma unreadable_image_aborts_the_run_witness :
  main MoreSamples.lib (MoreSamples.world_at 0 false []) Sample.st0
  = (mkSt ∅ [LogInfo "Running quantum integrity scan on image: %s"
                     [JStr IMAGE_PATH]],
     inl (LibraryError "FileNotFoundError")).
Proof.
  apply (unreadable_image_aborts_the_run
           MoreSamples.lib (MoreSamples.world_at 0 false []) IMAGE_PATH
           Sample.st0 (LibraryError "FileNotFoundError") eq_refl).
Defined.

(** X18. Whenever a face is found the run ends with the [TypeError] of
    [q_coherence_scan], having logged its first line and made that call: the
    score log line, both requests and the report are never reached, and the
    disk is as it was. *)
Theorem face_found_run_stops_at_the_scan
        (lib : PyLib) (w : World) (path : string) (st : St)
        (img : image) (vector : list R) (rest : list (list R)) :
  load_image_file w path = inr img ->
  face_encodings lib img = vector :: rest ->
  run_analysis lib w path st
  = (mkSt (disk st)
          (trace st
           ++ [LogInfo "Running quantum integrity scan on image: %s"
                       [JStr path];
               CircuitRun (derive_theta vector) (derive_color_avg lib img)]),
     inl TypeError).
Proof.
  intros Hload Hface. rewrite run_analysis_eq, Hload, Hface. reflexivity.
Qed.

Lemma face_found_run_stops_at_the_scan_witness :
  main (Sample.lib [Sample.face])
       (Sample.world [Sample.text "first"; Sample.text "second"]) Sample.st0
  = (mkSt ∅
          [LogInfo "Running quantum integrity scan on image: %s"
                   [JStr IMAGE_PATH];
           CircuitRun (derive_theta Sample.face)
                      (derive_color_avg (Sample.lib [Sample.face])
                                        Sample.rgb)],
     inl TypeError).
Proof.
  apply (face_found_run_stops_at_the_scan
           (Sample.lib [Sample.face])
           (Sample.world [Sample.text "first"; Sample.text "second"])
           IMAGE_PATH Sample.st0 Sample.rgb Sample.face [] eq_refl eq_refl).
Defined.

(** X11. [ask] always records exactly one request and never touches the
    disk.  It returns the value parsed from the text of the first choice of
    the response (later choices are not looked at), and it raises exactly
    when the call raises, the response has no choice ([IndexError]), the
    first choice has no text ([TypeError]) or the text is not JSON. *)
Theorem ask_outcomes
        (lib : PyLib) (w : World) (prompt : string) (max_tokens : nat)
        (st : St) :
  let res := ChatCompletion_create w (api_key w)
               (length (requests_of (trace st))) MODEL [("user", prompt)]
               max_tokens in
  let st' := fst (ask lib w prompt max_tokens st) in
  let out := snd (ask lib w prompt max_tokens st) in
  disk st' = disk st
  /\ trace st' = trace st ++ [Request MODEL [("user", prompt)] max_tokens]
  /\ (forall v,
         out = inr v <->
         exists r c cs content,
           res = inr r /\ choices r = c :: cs
           /\ message_content c = Some content
           /\ json_loads lib content = Some v)
  /\ (forall e,
         out = inl e <->
         res = inl e
         \/ exists r, res = inr r /\
              ((choices r = [] /\ e = IndexError)
               \/ exists c cs, choices r = c :: cs /\
                    ((message_content c = None /\ e = TypeError)
                     \/ exists content,
                          message_content c = Some content
                          /\ json_loads lib content = None
                          /\ e = JSONDecodeError))).
Proof.
  cbv zeta. unfold ask; cbn [fst snd disk trace].
  split; [reflexivity|]. split; [reflexivity|]. split.
  - intros v. unfold ask_reply.
    destruct (ChatCompletion_create w (api_key w) _ MODEL _ max_tokens)
      as [e'|r].
    { split; [discriminate|]. intros (r & c & cs & content & [=] & _). }
    destruct (choices r) as [|c cs] eqn:Hc.
    { split; [discriminate|].
      intros (r' & c & cs & content & [= <-] & Hc' & _). congruence. }
    destruct (message_content c) as [content|] eqn:Hm.
    2:{ split; [discriminate|].
        intros (r' & c' & cs' & content & [= <-] & Hc' & Hm' & _).
        congruence. }
    destruct (json_loads lib content) as [v'|] eqn:Hj.
    + split.
      * intros [= <-]. now exists r, c, cs, content.
      * intros (r' & c' & cs' & content' & [= <-] & Hc' & Hm' & Hj').
        congruence.
    + split; [discriminate|].
      intros (r' & c' & cs' & content' & [= <-] & Hc' & Hm' & Hj').
      congruence.
  - intros e. apply ask_reply_failure.
Qed.

(** ** The report file *)

Module NameFacts.

Lemma list_ascii_of_string_app (a b : string) :
  list_ascii_of_string (a ++ b)
  = (list_ascii_of_string a ++ list_ascii_of_string b)%list.
Proof.
  induction a as [|c a IH]; simpl; [reflexivity | now rewrite IH].
Qed.

Lemma string_app_inv_tail (a b s : string) :
  (a ++ s = b ++ s)%string -> a = b.
Proof.
  intros H. apply (f_equal list_ascii_of_string) in H.
  rewrite !list_ascii_of_string_app in H.
  apply app_inv_tail in H.
  rewrite <- (string_of_list_ascii_of_string a),
          <- (string_of_list_ascii_of_string b).
  now rewrite H.
Qed.

Lemma report_name_inj (w w' : World) :
  report_name w = report_name w' ->
  py_int (time_time w) = py_int (time_time w').
Proof.
  unfold report_name. intros H.
  apply (String.app_inj "corruption_report_") in H.
  apply string_app_inv_tail in H.
  now apply pretty_Z_inj in H.
Qed.

(** [int] of a non-negative float is its whole part. *)
Lemma py_int_floor (t : Q) (k : Z) :
  (0 <= k)%Z -> (inject_Z k <= t)%Q -> (t < inject_Z (k + 1))%Q ->
  py_int t = k.
Proof.
  destruct t as [n d]. unfold py_int, Qle, Qlt; simpl.
  intros Hk Hle Hlt.
  assert (Hn : (0 <= n)%Z) by nia.
  rewrite Z.quot_div_nonneg by lia.
  symmetry. apply (Z.div_unique_pos n (Zpos d) k (n - k * Zpos d)); lia.
Qed.

End NameFacts.

(** X12. The report's file name identifies the whole second of the clock
    and nothing else: two runs get the same name exactly when
    [int(time.time())] is the same for both. *)
Theorem report_name_identifies_the_second (w w' : World) :
  report_name w = report_name w'
  <-> py_int (time_time w) = py_int (time_time w').
Proof.
  split; [apply NameFacts.report_name_inj|].
  unfold report_name. now intros ->.
Qed.

(** X13. Two clock readings within the same second (on or after the epoch)
    give the same report name, [corruption_report_<that second>.json]. *)
Theorem same_second_same_report_name (w w' : World) (k : Z) :
  (0 <= k)%Z ->
  (inject_Z k <= time_time w)%Q -> (time_time w < inject_Z (k + 1))%Q ->
  (inject_Z k <= time_time w')%Q -> (time_time w' < inject_Z (k + 1))%Q ->
  report_name w = report_name w'
  /\ report_name w
     = ("corruption_report_" ++ pretty k ++ ".json")%string.
Proof.
  intros Hk H1 H2 H3 H4. unfold report_name.
  now rewrite (NameFacts.py_int_floor _ k Hk H1 H2),
              (NameFacts.py_int_floor _ k Hk H3 H4).
Qed.

Lemma same_second_same_report_name_witness :
  report_name (Sample.world [])
  = report_name (MoreSamples.world_at (6800000003 # 4) true [])
  /\ report_name (Sample.world [])
     = "corruption_report_1700000000.json"%string.
Proof.
  apply (same_second_same_report_name
           (Sample.world [])
           (MoreSamples.world_at (6800000003 # 4) true [])
           1700000000);
    vm_compute; congruence.
Defined.
